(** * mailman_public_inbox: the Public-Inbox archiver plugin for Mailman

    A shallow embedding of [src/mailman_public_inbox/__init__.py] (class
    [PublicInbox]) and the properties of its configuration parser, its
    record lookup, its permalink construction and its subprocess-driven
    operations.

    Representation choices, all fixed here once:
    - a Python [bytes] value is a [list byte];
    - a Python [str] is a [string] holding the UTF-8 encoding of its code
      points, so [bytes.decode()] is a validity check followed by a
      reinterpretation; every [str] operation the source uses ([split] on
      ["."], [startswith "<"], [endswith ">"], the two one-character slices
      behind those tests, [==]) acts on ASCII delimiters only and therefore
      commutes with the encoding;
    - the outer dictionary [self.pi_config] is an insertion-ordered
      association list (the lookup loop depends on the order), the inner
      per-list dictionaries are [gmap string string];
    - an exception is a value of [exn] carried by [Result];
    - [subprocess.run], [os.environ], [urljoin], [os.path.join] and
      [shlex.split] belong to the Python runtime, not to this repository:
      they are parameters of the model, a [Host.t], and the ones that can
      raise in Python can raise there;
    - a pipe read in text mode ([universal_newlines=True]) is decoded with
      the strict UTF-8 codec, the locale's codec on a UTF-8 host, and what
      does not decode raises [UnicodeDecodeError]. *)

From Stdlib Require Import ZArith NArith List Ascii String Bool Lia.
From Stdlib.Strings Require Import Byte.
From stdpp Require Import base tactics option list strings gmap.
Import ListNotations.

Local Open Scope string_scope.
Local Open Scope list_scope.

(** ** Python values and exceptions *)

Module Py.

Definition bytes := list byte.

Inductive exn : Type :=
| ValueError
| UnicodeDecodeError
| IndexError
| KeyError
| OSError.

Inductive Result (A : Type) : Type :=
| Ok (a : A)
| Raise (e : exn).
Arguments Ok {A} a.
Arguments Raise {A} e.

Definition is_ok {A} (r : Result A) : bool :=
  match r with Ok _ => true | Raise _ => false end.

Definition rbind {A B} (r : Result A) (k : A -> Result B) : Result B :=
  match r with
  | Ok a => k a
  | Raise e => Raise e
  end.

(** [[f(i) for i in l]]: the elements are visited in order and the first
    exception ends the comprehension. *)
Fixpoint comprehension {A B} (f : A -> Result B) (l : list A) : Result (list B) :=
  match l with
  | [] => Ok []
  | x :: l' => rbind (f x) (fun y => rbind (comprehension f l') (fun ys => Ok (y :: ys)))
  end.

(** *** bytes *)

Definition NUL : byte := x00.
Definition LF : byte := x0a.

(** [b.split(sep)] for a one-byte separator: one more piece than there are
    separators, empty pieces kept. *)
Fixpoint bytes_split (sep : byte) (b : bytes) : list bytes :=
  match b with
  | [] => [[]]
  | c :: b' =>
      if Byte.eqb c sep then [] :: bytes_split sep b'
      else match bytes_split sep b' with
           | piece :: pieces => (c :: piece) :: pieces
           | [] => [[c]]
           end
  end.

(** [b.split(sep, 1)]: at most one cut, at the first separator. *)
Fixpoint bytes_split1 (sep : byte) (b : bytes) : list bytes :=
  match b with
  | [] => [[]]
  | c :: b' =>
      if Byte.eqb c sep then [[]; b']
      else match bytes_split1 sep b' with
           | piece :: pieces => (c :: piece) :: pieces
           | [] => [[c]]
           end
  end.

(** *** UTF-8, as the strict codec accepts it: shortest forms only, no
    surrogates, nothing above U+10FFFF. *)

Definition in_range (lo hi : N) (b : byte) : bool :=
  (lo <=? Byte.to_N b)%N && (Byte.to_N b <=? hi)%N.

Definition continuation : byte -> bool := in_range 0x80 0xBF.

Fixpoint utf8_valid (b : bytes) : bool :=
  match b with
  | [] => true
  | b0 :: r0 =>
      if in_range 0x00 0x7F b0 then utf8_valid r0
      else if in_range 0xC2 0xDF b0 then
        match r0 with
        | b1 :: r1 => continuation b1 && utf8_valid r1
        | _ => false
        end
      else if in_range 0xE0 0xEF b0 then
        match r0 with
        | b1 :: b2 :: r2 =>
            (if Byte.eqb b0 xe0 then in_range 0xA0 0xBF b1
             else if Byte.eqb b0 xed then in_range 0x80 0x9F b1
             else continuation b1)
            && continuation b2 && utf8_valid r2
        | _ => false
        end
      else if in_range 0xF0 0xF4 b0 then
        match r0 with
        | b1 :: b2 :: b3 :: r3 =>
            (if Byte.eqb b0 xf0 then in_range 0x90 0xBF b1
             else if Byte.eqb b0 xf4 then in_range 0x80 0x8F b1
             else continuation b1)
            && continuation b2 && continuation b3 && utf8_valid r3
        | _ => false
        end
      else false
  end.

(** [b.decode()] *)
Definition decode (b : bytes) : Result string :=
  if utf8_valid b then Ok (string_of_list_byte b) else Raise UnicodeDecodeError.

(** What a pipe read in text mode ([universal_newlines=True]) gives once
    its bytes are decoded: every ["\r\n"] and every remaining ["\r"] is a
    line feed. *)
Fixpoint translate_newlines (s : string) : string :=
  match s with
  | EmptyString => EmptyString
  | String c s' =>
      if Ascii.eqb c "013"
      then match s' with
           | String c' s'' =>
               if Ascii.eqb c' "010" then String "010" (translate_newlines s'')
               else String "010" (translate_newlines s')
           | EmptyString => String "010" EmptyString
           end
      else String c (translate_newlines s')
  end.

(** The [str] a text-mode pipe holding the decodable bytes [b] is read as. *)
Definition text_of (b : bytes) : string :=
  translate_newlines (string_of_list_byte b).

(** [s.encode()], total on the strings of this model. *)
Definition encode (s : string) : bytes := list_byte_of_string s.

(** *** str *)

(** [s.split(sep)] for a one-character separator. *)
Fixpoint str_split (sep : ascii) (s : string) : list string :=
  match s with
  | EmptyString => [EmptyString]
  | String c s' =>
      if Ascii.eqb c sep then EmptyString :: str_split sep s'
      else match str_split sep s' with
           | piece :: pieces => String c piece :: pieces
           | [] => [String c EmptyString]
           end
  end.

Definition startswith (s p : string) : bool := String.prefix p s.

(** [s.endswith(p)]: some suffix of [s] is [p]. *)
Fixpoint endswith (s p : string) : bool :=
  String.eqb s p ||
  match s with
  | EmptyString => false
  | String _ s' => endswith s' p
  end.

(** [s[1:]] *)
Definition slice_from_1 (s : string) : string :=
  match s with
  | EmptyString => EmptyString
  | String _ s' => s'
  end.

(** [s[:-1]] *)
Fixpoint slice_to_last (s : string) : string :=
  match s with
  | EmptyString => EmptyString
  | String c s' =>
      match s' with
      | EmptyString => EmptyString
      | String _ _ => String c (slice_to_last s')
      end
  end.

(** Truth value of a [str]: non-empty. *)
Definition str_truthy (s : string) : bool := negb (String.eqb s "").

(** Truth value of an [Optional[str]]: present and non-empty. *)
Definition opt_truthy (o : option string) : bool :=
  match o with
  | Some s => str_truthy s
  | None => false
  end.

(** [l[i]] *)
Definition index {A} (l : list A) (i : nat) : Result A :=
  match nth_error l i with
  | Some x => Ok x
  | None => Raise IndexError
  end.

End Py.

(** ** Insertion-ordered dictionaries

    A Python [dict] whose iteration order is observed.  Assigning to an
    existing key keeps the key's position, assigning to a new key appends. *)

Module OrderedDict.

Section Dict.
Context {V : Type}.

Definition t := list (string * V).

Definition empty : t := [].

Fixpoint get (k : string) (d : t) : option V :=
  match d with
  | [] => None
  | (k', v) :: d' => if String.eqb k' k then Some v else get k d'
  end.

(** [k in d] *)
Definition mem (k : string) (d : t) : bool :=
  match get k d with Some _ => true | None => false end.

(** [d[k] = v] *)
Fixpoint set (k : string) (v : V) (d : t) : t :=
  match d with
  | [] => [(k, v)]
  | (k', v') :: d' =>
      if String.eqb k' k then (k, v) :: d' else (k', v') :: set k v d'
  end.

(** [d.values()] *)
Definition values (d : t) : list V := map snd d.

Definition keys (d : t) : list string := map fst d.

(** Truth value of a dict: non-empty. *)
Definition truthy (d : t) : bool :=
  match d with [] => false | _ :: _ => true end.

End Dict.
Arguments t V : clear implicits.

End OrderedDict.


(** ** The host's objects, as far as the plugin reads them *)

(** [mailman.interfaces.archiver.ArchivePolicy] *)
Inductive ArchivePolicy : Type :=
| never
| private
| public.

Definition ArchivePolicy_eqb (a b : ArchivePolicy) : bool :=
  match a, b with
  | never, never | private, private | public, public => true
  | _, _ => false
  end.

(** The attributes of an [IMailingList] the plugin reads. *)
Record MailingList : Type := {
  posting_address : string;
  list_id : string;
  list_name : string;
  fqdn_listname : string;
  archive_policy : ArchivePolicy;
  advertised : bool
}.

(** A message: [msg['message-id']] (the host only hands over messages that
    carry the header) and [msg.as_string()]. *)
Record Message : Type := {
  message_id : string;
  as_string : string
}.

(** ** Subprocesses, the log and the plugin's state *)

(** What [subprocess.run(args, capture_output=True, input=..., env=...,
    universal_newlines=...)] is called with; [text] is the last keyword. *)
Record command : Type := {
  args : list string;
  input : option string;
  env : gmap string string;
  text : bool
}.

(** What a program that ran leaves: its exit status and the bytes it wrote
    to the two captured pipes. *)
Record CompletedProcess : Type := {
  returncode : Z;
  stdout : Py.bytes;
  stderr : Py.bytes
}.

Inductive level : Type := INFO | ERROR.

(** An argument of a log record. *)
Inductive logarg : Type :=
| AStr (s : string)
| AInt (z : Z)
| ABytes (b : Py.bytes)
| AOpt (o : option string)
| APolicy (p : ArchivePolicy)
| ABool (b : bool)
| AList (m : MailingList).

(** What the plugin does to the outside world, in order. *)
Inductive event : Type :=
| Run (c : command) (p : CompletedProcess)
| Log (l : level) (fmt : string) (a : list logarg).

(** The Python runtime the plugin runs on.  [popen] starts a program and
    captures the bytes of its two pipes; it answers from the history of
    everything done so far, so the same command may be answered differently
    at different times, and it raises what [subprocess.run] raises when the
    program does not get to run ([FileNotFoundError] and the other
    [OSError]s, [IndexError] on an empty argument list, [ValueError] on an
    argument with a NUL or, in text mode, on an input the codec cannot
    encode).  [urljoin] and [shlex_split] raise [ValueError] on what they
    cannot parse.  [os.path.join] of two [str] returns. *)
Module Host.

Record t : Type := {
  environ : gmap string string;
  urljoin : string -> string -> Py.Result string;
  path_join : string -> string -> string;
  shlex_split : string -> Py.Result (list string);
  popen : list event -> command -> Py.Result CompletedProcess
}.

End Host.

(** A host on which every library call returns: every program starts, and
    every URL and every reload command parses.  [host_of] makes it a host;
    the methods are defined on hosts, and a statement made for a [Runtime]
    is a statement about the hosts of that kind only.  On them the one
    exception left is the [UnicodeDecodeError] of a pipe read in text
    mode. *)
Record Runtime : Type := {
  os_environ : gmap string string;
  urljoin : string -> string -> string;
  os_path_join : string -> string -> string;
  shlex_split : string -> list string;
  subprocess_run : list event -> command -> CompletedProcess
}.

Definition host_of (rt : Runtime) : Host.t :=
  {| Host.environ := os_environ rt;
     Host.urljoin := fun base ref => Py.Ok (urljoin rt base ref);
     Host.path_join := os_path_join rt;
     Host.shlex_split := fun cmd => Py.Ok (shlex_split rt cmd);
     Host.popen := fun hist c => Py.Ok (subprocess_run rt hist c) |}.

Coercion host_of : Runtime >-> Host.t.

(** The attributes [__init__] reads from the archiver's configuration file;
    [ConfigParser.get] returns each of them as a [str].  They are never
    assigned again. *)
Record Settings : Type := {
  base_url : string;
  public_inbox_config : string;
  public_inbox_home : string;
  public_inbox_path : string;
  auto_create : string;
  reload_command : string;
  is_enabled : bool
}.

(** An inner dictionary of [self.pi_config]: field name to value. *)
Abbreviation conf := (gmap string string) (only parsing).

(** The mutable part: the cached [self.pi_config] and the world's history. *)
Record State : Type := {
  pi_config : OrderedDict.t conf;
  trace : list event
}.

Definition set_pi_config (d : OrderedDict.t conf) (s : State) : State :=
  {| pi_config := d; trace := trace s |}.

Definition emit (e : event) (s : State) : State :=
  {| pi_config := pi_config s; trace := trace s ++ [e] |}.

(** State and exceptions: a raised exception keeps the state reached. *)
Definition M (A : Type) : Type := State -> Py.Result A * State.

Definition ret {A : Type} (a : A) : M A := fun s => (Py.Ok a, s).

Definition bind {A B : Type} (m : M A) (k : A -> M B) : M B := fun s =>
  match m s with
  | (Py.Ok a, s') => k a s'
  | (Py.Raise e, s') => (Py.Raise e, s')
  end.

Notation "'let*' x ':=' m 'in' k" := (bind m (fun x => k))
  (at level 10, x name, m at level 100, k at level 200).
Notation "m '>>' k" := (bind m (fun _ => k))
  (at level 100, k at level 200, right associativity).

Definition log (l : level) (fmt : string) (a : list logarg) : M unit :=
  fun s => (Py.Ok tt, emit (Log l fmt a) s).

Definition get_pi_config : M (OrderedDict.t conf) :=
  fun s => (Py.Ok (pi_config s), s).

Definition put_pi_config (d : OrderedDict.t conf) : M unit :=
  fun s => (Py.Ok tt, set_pi_config d s).

(** A library call that returns or raises without touching the state. *)
Definition lift {A : Type} (r : Py.Result A) : M A := fun s => (r, s).

(** ** The configuration parser's loop *)

(** [k, v = [i.decode() for i in cfg.split(b'\n', 1)]] *)
Definition unpack_key_value (cfg : Py.bytes) : Py.Result (string * string) :=
  Py.rbind (Py.comprehension Py.decode (Py.bytes_split1 Py.LF cfg)) (fun l =>
  match l with
  | [k; v] => Py.Ok (k, v)
  | _ => Py.Raise Py.ValueError
  end).

(** [name, conf = parts[1:]] *)
Definition unpack_name_conf (parts : list string) : Py.Result (string * string) :=
  match drop 1 parts with
  | [name; field] => Py.Ok (name, field)
  | _ => Py.Raise Py.ValueError
  end.

(** [if name not in d: d[name] = {}] then [d[name][conf] = v] *)
Definition store (name field v : string) (d : OrderedDict.t conf)
  : Py.Result (OrderedDict.t conf) :=
  let d1 := if OrderedDict.mem name d then d else OrderedDict.set name ∅ d in
  match OrderedDict.get name d1 with
  | Some c => Py.Ok (OrderedDict.set name (<[field := v]> c) d1)
  | None => Py.Raise Py.KeyError
  end.

(** One turn of the [for cfg in ...] loop (source lines 86 to 97). *)
Definition parse_entry (cfg : Py.bytes) (d : OrderedDict.t conf)
  : Py.Result (OrderedDict.t conf) :=
  match unpack_key_value cfg with
  | Py.Raise Py.ValueError | Py.Raise Py.UnicodeDecodeError => Py.Ok d
  | Py.Raise e => Py.Raise e
  | Py.Ok (k, v) =>
      let parts := Py.str_split "." k in
      Py.rbind (Py.index parts 0) (fun p0 =>
      if negb (String.eqb p0 "publicinbox") || negb (length parts =? 3)%nat
      then Py.Ok d
      else
        Py.rbind (unpack_name_conf parts) (fun '(name, field) =>
        store name field v d))
  end.

(** The whole loop; an exception leaves the dictionary as the turns before
    it made it. *)
Fixpoint parse_entries (cfgs : list Py.bytes) (d : OrderedDict.t conf)
  : Py.Result unit * OrderedDict.t conf :=
  match cfgs with
  | [] => (Py.Ok tt, d)
  | cfg :: cfgs' =>
      match parse_entry cfg d with
      | Py.Ok d' => parse_entries cfgs' d'
      | Py.Raise e => (Py.Raise e, d)
      end
  end.

(** The loop run on [self.pi_config]. *)
Definition parse_loop (cfgs : list Py.bytes) : M unit :=
  fun s =>
    let '(r, d) := parse_entries cfgs (pi_config s) in
    (r, set_pi_config d s).

(** The record loop of [_get_publicinbox_conf] (source lines 102 to 108). *)
Fixpoint find_conf (confs : list conf) (address listid : string) : conf :=
  match confs with
  | [] => ∅
  | c :: confs' =>
      if bool_decide (c !! "address" = Some address) then c
      else if bool_decide (c !! "listid" = Some listid) then c
      else find_conf confs' address listid
  end.

(** Truth value of an inner dictionary. *)
Definition conf_truthy (c : conf) : bool := bool_decide (c ≠ ∅).

(** The message identifier as [permalink] trims it (source lines 120 to 124). *)
Definition trim_msg_id (msg_id : string) : string :=
  let msg_id := if Py.startswith msg_id "<" then Py.slice_from_1 msg_id else msg_id in
  let msg_id := if Py.endswith msg_id ">" then Py.slice_to_last msg_id else msg_id in
  msg_id.

(** ** The methods of [PublicInbox] *)

Section PublicInbox.

Context (h : Host.t) (self : Settings).

(** The environment [_run_command] hands to the subprocess (source lines 63
    to 71): the plugin's three variables win over the inherited ones, and
    over the caller's [env] keyword too, which [kwargs['env'].update(env)]
    overwrites. *)
Definition command_env (kw_env : option (gmap string string)) : gmap string string :=
  let e := Host.environ h in
  let e := <["PI_CONFIG" := public_inbox_config self]> e in
  let e := <["HOME" := public_inbox_home self]> e in
  let e := <["PATH" := public_inbox_path self]> e in
  match kw_env with
  | Some kw => e ∪ kw
  | None => e
  end.

(** [_run_command(args, **kwargs)]; [text_mode] is the keyword
    [universal_newlines], [stdin] is [input] and [kw_env] is [env].  What
    [subprocess.run] raises before the program runs leaves no trace.  In
    text mode it decodes both captured pipes, strictly and as UTF-8 (the
    locale's codec on the hosts the plugin is deployed on), once the program
    has run: a pipe that does not decode raises [UnicodeDecodeError] after
    the run. *)
Definition _run_command (argv : list string) (text_mode : bool)
    (stdin : option string) (kw_env : option (gmap string string))
  : M CompletedProcess :=
  fun s =>
    let c := {| args := argv; input := stdin; env := command_env kw_env;
                text := text_mode |} in
    match Host.popen h (trace s) c with
    | Py.Raise e => (Py.Raise e, s)
    | Py.Ok p =>
        (if text_mode
         then Py.rbind (Py.decode (stdout p)) (fun _ =>
              Py.rbind (Py.decode (stderr p)) (fun _ => Py.Ok p))
         else Py.Ok p,
         emit (Run c p) s)
    end.

Definition _parse_publicinbox_config : M unit :=
  let* d := get_pi_config in
  if OrderedDict.truthy d then ret tt
  else
    let* proc := _run_command ["git"; "config"; "-z"; "-l"; "--includes";
                               "--file"; public_inbox_config self]
                              false None None in
    (if negb (returncode proc =? 0)%Z
     then log ERROR "Error (%s) when reading public-inbox config: %s"
              [AInt (returncode proc); ABytes (stderr proc)]
     else ret tt) >>
    parse_loop (Py.bytes_split Py.NUL (stdout proc)).

Definition _get_publicinbox_conf (mlist : MailingList) : M conf :=
  _parse_publicinbox_config >>
  let* d := get_pi_config in
  ret (find_conf (OrderedDict.values d) (posting_address mlist) (list_id mlist)).

Definition list_url (mlist : MailingList) : M (option string) :=
  let* c := _get_publicinbox_conf mlist in
  if conf_truthy c then ret (c !! "url") else ret None.

Definition permalink (mlist : MailingList) (msg : Message) : M (option string) :=
  let* url := list_url mlist in
  let msg_id := trim_msg_id (message_id msg) in
  match url with
  | Some u => if Py.str_truthy u
              then let* link := lift (Host.urljoin h u (msg_id +:+ "/")) in
                   ret (Some link)
              else ret None
  | None => ret None
  end.

Definition _reload_public_inbox : M unit :=
  put_pi_config OrderedDict.empty >>
  if negb (Py.str_truthy (reload_command self)) then ret tt
  else
    let* argv := lift (Host.shlex_split h (reload_command self)) in
    let* proc := _run_command argv false None None in
    if negb (returncode proc =? 0)%Z
    then log ERROR "Error running public-inbox reload command: %s"
             [ABytes (stderr proc)]
    else ret tt.

(** The argument list of [public-inbox-init] (source lines 177 to 181),
    evaluated before the call. *)
Definition init_argv (mlist : MailingList) : Py.Result (list string) :=
  let dir := Host.path_join h (public_inbox_home self) (list_name mlist) in
  Py.rbind (Host.urljoin h (base_url self) (list_name mlist +:+ "/")) (fun url =>
  Py.Ok ["public-inbox-init"; "-V2"; list_name mlist; dir; url;
         fqdn_listname mlist]).

Definition _ensure_list_created (mlist : MailingList) : M bool :=
  if negb (Py.str_truthy (auto_create self)) then ret false
  else
    log INFO "Attempting to create public-inbox for {} with {} and {} and fqdn {}. {}"
        [AStr (list_name mlist); APolicy (archive_policy mlist);
         ABool (advertised mlist); AStr (fqdn_listname mlist); AList mlist] >>
    let* c := _get_publicinbox_conf mlist in
    if conf_truthy c then ret true
    else
      log INFO "Does not exist yet, proceeding." [] >>
      if negb (ArchivePolicy_eqb (archive_policy mlist) public)
         || negb (advertised mlist)
      then ret false
      else
        log INFO "Passed pre-check, creating public-inbox." [] >>
        let* argv := lift (init_argv mlist) in
        let* proc := _run_command argv false None None in
        if negb (returncode proc =? 0)%Z
        then
          log ERROR "Unable to initialise public-inbox archive for list %s: %s"
              [AStr (list_name mlist); ABytes (stderr proc)] >>
          ret false
        else
          log INFO "Initialised public-inbox archive for list %s"
              [AStr (list_name mlist)] >>
          _reload_public_inbox >>
          ret true.

Definition mda_argv : list string := ["public-inbox-mda"; "--no-precheck"].

Definition archive_message (mlist : MailingList) (msg : Message)
  : M (option string) :=
  let* created := _ensure_list_created mlist in
  if negb created then ret None
  else
    let kw_env : gmap string string :=
      {[ "ORIGINAL_RECIPIENT" := posting_address mlist ]} in
    let* url := permalink mlist msg in
    let* proc := _run_command mda_argv true (Some (as_string msg))
                              (Some kw_env) in
    (if negb (returncode proc =? 0)%Z
     then log ERROR "%s: public-inbox subprocess exited with error(%s): %s"
              [AStr (message_id msg); AInt (returncode proc);
               AStr (Py.text_of (stderr proc))]
     else log INFO "%s: Archived with public-inbox at %s"
              [AStr (message_id msg); AOpt url]) >>
    ret url.

Definition list_deleting_handler (mlist : MailingList) : M unit :=
  if negb (is_enabled self) || negb (Py.str_truthy (auto_create self))
  then ret tt
  else
    let* c := _get_publicinbox_conf mlist in
    if negb (conf_truthy c) then ret tt
    else
      let* proc := _run_command ["git"; "config"; "--file";
                                 public_inbox_config self; "--remove-section";
                                 "publicinbox." +:+ list_name mlist]
                                false None None in
      (if negb (returncode proc =? 0)%Z
       then log ERROR "Unable to remove public-inbox config for list %s: %s"
                [AStr (list_name mlist); ABytes (stderr proc)]
       else log INFO "Removed public-inbox config for list %s"
                [AStr (list_name mlist)]) >>
      _reload_public_inbox.

End PublicInbox.

(** ** Vocabulary of the properties *)

(** The cache the loop builds from nothing. *)
Definition parsed (cfgs : list Py.bytes) : OrderedDict.t conf :=
  snd (parse_entries cfgs OrderedDict.empty).

(** Lookup by field: [d[name][field]] where both exist. *)
Definition field_of (d : OrderedDict.t conf) (name field : string) : option string :=
  match OrderedDict.get name d with
  | Some c => c !! field
  | None => None
  end.

(** The key [publicinbox.<name>.<field>]. *)
Definition dotted_key (name field : string) : string :=
  "publicinbox." +:+ name +:+ "." +:+ field.

(** A record as [git config -z -l] prints it between two NULs: the key, a
    line feed, the value. *)
Definition raw_record (k v : string) : Py.bytes :=
  Py.encode k ++ Py.LF :: Py.encode v.

Fixpoint occurs (c : ascii) (s : string) : bool :=
  match s with
  | EmptyString => false
  | String c' s' => Ascii.eqb c' c || occurs c s'
  end.

Definition LF_char : ascii := ascii_of_byte Py.LF.

(** A Python [str], in this model: a string that is the encoding of one. *)
Definition is_str (s : string) : bool := Py.utf8_valid (Py.encode s).

(** The (key, value) pair of a raw record that has one. *)
Definition decoded (cfg : Py.bytes) : option (string * string) :=
  match unpack_key_value cfg with
  | Py.Ok kv => Some kv
  | Py.Raise _ => None
  end.

(** A record matches a list on either of the two fields. *)
Definition matches (address listid : string) (c : conf) : Prop :=
  c !! "address" = Some address ∨ c !! "listid" = Some listid.

Definition matchesb (address listid : string) (c : conf) : bool :=
  bool_decide (c !! "address" = Some address)
  || bool_decide (c !! "listid" = Some listid).

(** The commands of a history, in order. *)
Definition commands (tr : list event) : list command :=
  omap (fun e => match e with Run c _ => Some c | Log _ _ _ => None end) tr.

(** The log records of a level in a history, in order. *)
Definition logged (l : level) (tr : list event) : list (string * list logarg) :=
  omap (fun e => match e with
                 | Log l' fmt a =>
                     match l, l' with
                     | INFO, INFO | ERROR, ERROR => Some (fmt, a)
                     | _, _ => None
                     end
                 | Run _ _ => None
                 end) tr.

(** The argument list of [public-inbox-init] on a host where [urljoin]
    returns. *)
Definition init_args (rt : Runtime) (self : Settings) (mlist : MailingList)
  : list string :=
  ["public-inbox-init"; "-V2";
   list_name mlist;
   os_path_join rt (public_inbox_home self) (list_name mlist);
   urljoin rt (base_url self) (list_name mlist +:+ "/");
   fqdn_listname mlist].

Definition init_command (rt : Runtime) (self : Settings) (mlist : MailingList) : command :=
  {| args := init_args rt self mlist; input := None;
     env := command_env rt self None; text := false |}.

Definition mda_command (h : Host.t) (self : Settings) (mlist : MailingList)
    (msg : Message) : command :=
  {| args := mda_argv; input := Some (as_string msg);
     env := command_env h self
              (Some {[ "ORIGINAL_RECIPIENT" := posting_address mlist ]});
     text := true |}.

(** Both captured pipes of a finished program are text: what a call in
    text mode needs to return. *)
Definition decodes (p : CompletedProcess) : bool :=
  Py.utf8_valid (stdout p) && Py.utf8_valid (stderr p).

(** The log record a delivery ends with (source lines 140 to 145). *)
Definition delivery_record (msg : Message) (url : option string)
    (proc : CompletedProcess) : event :=
  if (returncode proc =? 0)%Z
  then Log INFO "%s: Archived with public-inbox at %s"
           [AStr (message_id msg); AOpt url]
  else Log ERROR "%s: public-inbox subprocess exited with error(%s): %s"
           [AStr (message_id msg); AInt (returncode proc);
            AStr (Py.text_of (stderr proc))].

(** The commands of a reload that returns: the reload command as
    [shlex.split] cuts it up, if one is configured. *)
Definition reload_commands (h : Host.t) (self : Settings) : list command :=
  if Py.str_truthy (reload_command self)
  then match Host.shlex_split h (reload_command self) with
       | Py.Ok argv => [{| args := argv; input := None;
                           env := command_env h self None; text := false |}]
       | Py.Raise _ => []
       end
  else [].

(** The first log record of [_ensure_list_created]. *)
Definition log_attempt (mlist : MailingList) : event :=
  Log INFO "Attempting to create public-inbox for {} with {} and {} and fqdn {}. {}"
      [AStr (list_name mlist); APolicy (archive_policy mlist);
       ABool (advertised mlist); AStr (fqdn_listname mlist); AList mlist].

(** From the state the record lookup of [_ensure_list_created] ends in to
    the state [public-inbox-init] is started in: two log records. *)
Definition at_init (s : State) : State :=
  emit (Log INFO "Passed pre-check, creating public-inbox." [])
       (emit (Log INFO "Does not exist yet, proceeding." []) s).

(** Two runtimes that differ at most in what a subprocess fed on standard
    input answers.  The delivery agent is the only such subprocess. *)
Definition same_but_stdin (h1 h2 : Host.t) : Prop :=
  Host.environ h1 = Host.environ h2 ∧
  (∀ a b, Host.urljoin h1 a b = Host.urljoin h2 a b) ∧
  (∀ a b, Host.path_join h1 a b = Host.path_join h2 a b) ∧
  (∀ a, Host.shlex_split h1 a = Host.shlex_split h2 a) ∧
  (∀ hist c, input c = None → Host.popen h1 hist c = Host.popen h2 hist c).

(** A raw record is well formed when it splits into a key half and a value
    half that both decode. *)
Definition well_formed (cfg : Py.bytes) : bool :=
  match decoded cfg with
  | Some _ => true
  | None => false
  end.

(** The command [_parse_publicinbox_config] reads the configuration with. *)
Definition git_list_command (h : Host.t) (self : Settings) : command :=
  {| args := ["git"; "config"; "-z"; "-l"; "--includes"; "--file";
              public_inbox_config self];
     input := None;
     env := command_env h self None;
     text := false |}.

(** *** The merger as the specification words it

    The specification's parser takes (key, value) entries: split the key on
    ["."], keep the keys of exactly three parts whose first is
    ["publicinbox"], the second part names the record and the third the
    field, and the last write to a (name, field) pair wins. *)

Definition spec_retained (e : string * string) : option (string * string * string) :=
  match Py.str_split "." (fst e) with
  | [p0; name; field] =>
      if String.eqb p0 "publicinbox" then Some (name, field, snd e) else None
  | _ => None
  end.

Fixpoint spec_last_write (ws : list (string * string * string))
    (name field : string) : option string :=
  match ws with
  | [] => None
  | (n, f, v) :: ws' =>
      match spec_last_write ws' name field with
      | Some v' => Some v'
      | None => if String.eqb n name && String.eqb f field then Some v else None
      end
  end.

Definition spec_parse (entries : list (string * string)) (name field : string)
  : option string :=
  spec_last_write (omap spec_retained entries) name field.

(** *** The lookup as the specification's contract words it: every
    [address] is tried before any [listid]. *)

Fixpoint first_with (fld want : string) (confs : list conf) : option conf :=
  match confs with
  | [] => None
  | c :: confs' =>
      if bool_decide (c !! fld = Some want) then Some c
      else first_with fld want confs'
  end.

Definition spec_find_address_first (confs : list conf) (address listid : string) : conf :=
  match first_with "address" address confs with
  | Some c => c
  | None =>
      match first_with "listid" listid confs with
      | Some c => c
      | None => ∅
      end
  end.

(** ** A concrete installation, for the examples *)

Module Demo.

(** On a base that ends in a slash and a reference that is a plain relative
    path, [urljoin] appends the reference; the examples call it on nothing
    else. *)
Definition join (base ref : string) : string := base +:+ ref.

Definition git_record (k v : string) : Py.bytes := raw_record k v ++ [Py.NUL].

(** [git config -z -l] before the archive of list [test] exists ... *)
Definition config_before : Py.bytes :=
  git_record "core.bare" "true" ++
  git_record "publicinbox.other.address" "other@example.com" ++
  git_record "publicinbox.other.url" "http://x/other/".

(** ... and once it does. *)
Definition config_after : Py.bytes :=
  config_before ++
  git_record "publicinbox.test.address" "test@example.com" ++
  git_record "publicinbox.test.url" "http://x/list/" ++
  git_record "publicinbox.test.listid" "test.example.com".

Definition is_init_success (e : event) : bool :=
  match e with
  | Run c p =>
      match args c with
      | prog :: _ => String.eqb prog "public-inbox-init" && (returncode p =? 0)%Z
      | [] => false
      end
  | Log _ _ _ => false
  end.

(** A host on which [public-inbox-init] exits with [init_rc] and
    [public-inbox-mda], fed a message, with [mda_rc]; the configuration shows the archive of
    [test] once an init succeeded, or from the start when [exists_]. *)
Definition runtime (exists_ : bool) (init_rc mda_rc : Z) : Runtime :=
  {| os_environ := {[ "LANG" := "C" ]};
     urljoin := join;
     os_path_join := fun a b => a +:+ "/" +:+ b;
     shlex_split := Py.str_split " ";
     subprocess_run := fun h c =>
       match args c with
       | "git" :: _ =>
           {| returncode := 0;
              stdout := if exists_ || existsb is_init_success h
                        then config_after else config_before;
              stderr := [] |}
       | "public-inbox-init" :: _ =>
           {| returncode := init_rc; stdout := []; stderr := [] |}
       | "public-inbox-mda" :: _ =>
           {| returncode := match input c with Some _ => mda_rc | None => 0 end;
              stdout := []; stderr := [] |}
       | _ => {| returncode := 0; stdout := []; stderr := [] |}
       end |}.

(** The host [runtime true 0 0], but the delivery agent exits with 7 after
    a complaint in Latin-1: ["refus\xe9"], which is no UTF-8. *)
Definition garbled : Runtime :=
  {| os_environ := os_environ (runtime true 0 0);
     urljoin := join;
     os_path_join := os_path_join (runtime true 0 0);
     shlex_split := shlex_split (runtime true 0 0);
     subprocess_run := fun h c =>
       match args c with
       | "public-inbox-mda" :: _ =>
           {| returncode := 7; stdout := [];
              stderr := Py.encode "refus" ++ [xe9] |}
       | _ => subprocess_run (runtime true 0 0) h c
       end |}.

(** The host [runtime true 0 0] with no [public-inbox-mda] on the plugin's
    [PATH]: starting it raises [FileNotFoundError], an [OSError]. *)
Definition no_agent : Host.t :=
  {| Host.environ := os_environ (runtime true 0 0);
     Host.urljoin := fun base ref => Py.Ok (join base ref);
     Host.path_join := os_path_join (runtime true 0 0);
     Host.shlex_split := fun cmd => Py.Ok (shlex_split (runtime true 0 0) cmd);
     Host.popen := fun h c =>
       match args c with
       | "public-inbox-mda" :: _ => Py.Raise Py.OSError
       | _ => Py.Ok (subprocess_run (runtime true 0 0) h c)
       end |}.

(** A host whose configuration gives list [test] a URL with a bracket that
    is not closed: [urljoin] takes it for a broken IPv6 address and raises
    [ValueError]. *)
Definition bracket : Host.t :=
  {| Host.environ := os_environ (runtime true 0 0);
     Host.urljoin := fun base ref =>
       if occurs "[" base && negb (occurs "]" base) then Py.Raise Py.ValueError
       else Py.Ok (join base ref);
     Host.path_join := os_path_join (runtime true 0 0);
     Host.shlex_split := fun cmd => Py.Ok (shlex_split (runtime true 0 0) cmd);
     Host.popen := fun h c =>
       match args c with
       | "git" :: _ =>
           Py.Ok {| returncode := 0;
                    stdout := git_record "publicinbox.test.address" "test@example.com"
                              ++ git_record "publicinbox.test.url" "http://[x/list/";
                    stderr := [] |}
       | _ => Py.Ok (subprocess_run (runtime true 0 0) h c)
       end |}.

(** [shlex.split] on the reload commands of the examples: a command with a
    quotation that is not closed does not parse, and the examples quote
    nothing else. *)
Fixpoint quotes (s : string) : nat :=
  match s with
  | EmptyString => 0
  | String c s' => (if Ascii.eqb c "'" then 1 else 0) + quotes s'
  end.

Definition posix_split (cmd : string) : Py.Result (list string) :=
  if Nat.even (quotes cmd) then Py.Ok (Py.str_split " " cmd)
  else Py.Raise Py.ValueError.

(** The host [runtime false 0 0] with that [shlex.split]. *)
Definition quoting : Host.t :=
  {| Host.environ := os_environ (runtime false 0 0);
     Host.urljoin := fun base ref => Py.Ok (join base ref);
     Host.path_join := os_path_join (runtime false 0 0);
     Host.shlex_split := posix_split;
     Host.popen := fun h c => Py.Ok (subprocess_run (runtime false 0 0) h c) |}.

Definition settings (auto reload : string) : Settings :=
  {| base_url := "http://x/";
     public_inbox_config := "/var/lib/pi/config";
     public_inbox_home := "/var/lib/pi";
     public_inbox_path := "/usr/bin";
     auto_create := auto;
     reload_command := reload;
     is_enabled := true |}.

Definition test_list : MailingList :=
  {| posting_address := "test@example.com";
     list_id := "test.example.com";
     list_name := "test";
     fqdn_listname := "test@example.com";
     archive_policy := public;
     advertised := true |}.

Definition test_msg : Message :=
  {| message_id := "<abc@d>";
     as_string := "Message-ID: <abc@d>" |}.

Definition fresh : State := {| pi_config := OrderedDict.empty; trace := [] |}.

(** Two records where the first matches [test_list] on [listid] only and
    the second on [address]. *)
Definition by_listid : conf :=
  {[ "address" := "old@example.com"; "listid" := "test.example.com" ]}.

Definition by_address : conf :=
  {[ "address" := "test@example.com"; "listid" := "new.example.com" ]}.

End Demo.

(** ** Vocabulary of the further properties *)

(** The three variables every subprocess of the plugin is to see. *)
Definition plugin_env (self : Settings) (c : command) : Prop :=
  env c !! "PI_CONFIG" = Some (public_inbox_config self) ∧
  env c !! "HOME" = Some (public_inbox_home self) ∧
  env c !! "PATH" = Some (public_inbox_path self).

(** Every command run so far saw them. *)
Definition env_kept (self : Settings) (s : State) : Prop :=
  Forall (plugin_env self) (commands (trace s)).

(** A property of states that a method keeps. *)
Definition preserves {A : Type} (P : State -> Prop) (m : M A) : Prop :=
  ∀ s, P s → P (snd (m s)).

(** The names of a sequence, each at the place of its first occurrence. *)
Definition add_name (seen : list string) (n : string) : list string :=
  if existsb (String.eqb n) seen then seen else seen ++ [n].

Definition first_seen (names : list string) : list string :=
  fold_left add_name names [].

(** The record names the raw records write to, in the order of the
    records. *)
Definition written_names (cfgs : list Py.bytes) : list string :=
  map (fun w : string * string * string => fst (fst w))
      (omap spec_retained (omap decoded cfgs)).

(** A cache is a dictionary: no name twice, and no record without field. *)
Definition cache_ok (d : OrderedDict.t conf) : Prop :=
  NoDup (OrderedDict.keys d) ∧
  Forall (fun c : conf => c ≠ ∅) (OrderedDict.values d).

Definition cache_kept (s : State) : Prop := cache_ok (pi_config s).

Definition NUL_char : ascii := ascii_of_byte Py.NUL.

(** What [git config -z -l] prints for a list of entries: each entry as
    key, line feed, value, NUL. *)
Definition git_dump (es : list (string * string)) : Py.bytes :=
  concat (map (fun e => raw_record (fst e) (snd e) ++ [Py.NUL]) es).

(** An entry git can print that way: key and value are strings without
    NUL, and the key has no line feed. *)
Definition dumpable (e : string * string) : bool :=
  negb (occurs LF_char (fst e)) && negb (occurs NUL_char (fst e))
  && negb (occurs NUL_char (snd e)) && is_str (fst e) && is_str (snd e).

(** The command [list_deleting_handler] removes a section with. *)
Definition remove_section_command (h : Host.t) (self : Settings)
    (mlist : MailingList) : command :=
  {| args := ["git"; "config"; "--file"; public_inbox_config self;
              "--remove-section"; "publicinbox." +:+ list_name mlist];
     input := None;
     env := command_env h self None;
     text := false |}.

(** The commands a record lookup runs: [git config] on an empty cache,
    nothing on a filled one. *)
Definition lookup_commands (h : Host.t) (self : Settings) (s : State)
  : list command :=
  if OrderedDict.truthy (pi_config s) then [] else [git_list_command h self].

(** Since the state [s0], no command was fed on standard input. *)
Definition unfed_since (s0 s : State) : Prop :=
  ∃ before, commands (trace s) = commands (trace s0) ++ before ∧
            Forall (fun c => input c = None) before.

(** The settings with another value of [pi_auto_create]. *)
Definition with_auto_create (a : string) (self : Settings) : Settings :=
  {| base_url := base_url self;
     public_inbox_config := public_inbox_config self;
     public_inbox_home := public_inbox_home self;
     public_inbox_path := public_inbox_path self;
     auto_create := a;
     reload_command := reload_command self;
     is_enabled := is_enabled self |}.

(** * Properties *)

(** ** Python primitives *)

Module PyFacts.
Import Py.

Lemma byte_eqb_refl (a : byte) : Byte.eqb a a = true.
Proof. now apply Byte.byte_dec_lb. Qed.

Lemma encode_cons (c : ascii) (s : string) :
  encode (String c s) = byte_of_ascii c :: encode s.
Proof. reflexivity. Qed.

Lemma decode_encode (s : string) :
  utf8_valid (encode s) = true → decode (encode s) = Ok s.
Proof.
  intros H. unfold decode. rewrite H. unfold encode.
  now rewrite string_of_list_byte_of_string.
Qed.

(** A separator-free prefix is the first piece of a single cut. *)
Lemma bytes_split1_cut (sep : byte) (kb vb : bytes) :
  ¬ In sep kb → bytes_split1 sep (kb ++ sep :: vb) = [kb; vb].
Proof.
  induction kb as [| c kb IH]; intros Hnot; simpl.
  - now rewrite byte_eqb_refl.
  - destruct (Byte.eqb c sep) eqn:E.
    + apply Byte.byte_dec_bl in E. subst c. exfalso. apply Hnot. now left.
    + rewrite IH; [reflexivity |]. intros Hin. apply Hnot. now right.
Qed.

Lemma bytes_split1_whole (sep : byte) (b : bytes) :
  ¬ In sep b → bytes_split1 sep b = [b].
Proof.
  induction b as [| c b IH]; intros Hnot; simpl; [reflexivity |].
  destruct (Byte.eqb c sep) eqn:E.
  - apply Byte.byte_dec_bl in E. subst c. exfalso. apply Hnot. now left.
  - rewrite IH; [reflexivity |]. intros Hin. apply Hnot. now right.
Qed.

Lemma encode_no_sep (c : byte) (s : string) :
  occurs (ascii_of_byte c) s = false → ¬ In c (encode s).
Proof.
  induction s as [| a s IH]; [simpl; tauto |].
  rewrite encode_cons. cbn [occurs In]. intros H [Heq | Hin].
  - subst c. rewrite ascii_of_byte_of_ascii, Ascii.eqb_refl in H. discriminate.
  - apply orb_false_iff in H as [_ H]. now apply IH.
Qed.

Lemma str_split_nonempty (sep : ascii) (s : string) : str_split sep s ≠ [].
Proof.
  destruct s as [| c s]; simpl; [discriminate |].
  destruct (Ascii.eqb c sep); [discriminate |].
  destruct (str_split sep s); discriminate.
Qed.

Lemma str_split_whole (sep : ascii) (s : string) :
  occurs sep s = false → str_split sep s = [s].
Proof.
  induction s as [| c s IH]; simpl; [reflexivity |].
  intros H. apply orb_false_iff in H as [Hc Hs].
  rewrite Hc, (IH Hs). reflexivity.
Qed.

Lemma str_split_cut (sep : ascii) (a b : string) :
  occurs sep a = false →
  str_split sep (a +:+ String sep b) = a :: str_split sep b.
Proof.
  induction a as [| c a IH]; simpl.
  - intros _. now rewrite Ascii.eqb_refl.
  - intros H. apply orb_false_iff in H as [Hc Ha].
    rewrite Hc, (IH Ha). reflexivity.
Qed.

Lemma index_0_split (sep : ascii) (s : string) :
  ∃ p0 rest, str_split sep s = p0 :: rest ∧ index (str_split sep s) 0 = Ok p0.
Proof.
  destruct (str_split sep s) as [| p0 rest] eqn:E.
  - now apply str_split_nonempty in E.
  - exists p0, rest. split; reflexivity.
Qed.

Lemma comprehension_decode_exn (l : list bytes) (e : exn) :
  comprehension decode l = Raise e → e = UnicodeDecodeError.
Proof.
  induction l as [| b l IH]; simpl; [discriminate |].
  unfold decode at 1. destruct (utf8_valid b); simpl.
  - destruct (comprehension decode l); simpl; [discriminate |].
    intros [= <-]. now apply IH.
  - now intros [= <-].
Qed.

Lemma startswith_head (c : ascii) (s : string) :
  startswith (String c s) (String c EmptyString) = true.
Proof.
  unfold startswith. cbn [String.prefix].
  destruct (ascii_dec c c) as [_ | Hne]; [| now contradiction Hne].
  now destruct s.
Qed.

Lemma endswith_app (s p : string) : endswith (s +:+ p) p = true.
Proof.
  induction s as [| c s IH]; simpl.
  - destruct p; simpl; rewrite ?String.eqb_refl, ?Ascii.eqb_refl; reflexivity.
  - rewrite IH. apply orb_true_r.
Qed.

Lemma slice_to_last_app (s : string) (c : ascii) :
  slice_to_last (s +:+ String c EmptyString) = s.
Proof.
  induction s as [| a s IH]; simpl; [reflexivity |].
  rewrite IH. destruct s; reflexivity.
Qed.

End PyFacts.

(** ** Ordered dictionaries *)

Module OrderedDictFacts.
Import OrderedDict.

Section Facts.
Context {V : Type}.
Implicit Types (d : t V) (k : string) (v : V).

Lemma get_set_eq d k v : get k (set k v d) = Some v.
Proof.
  induction d as [| [k' v'] d IH]; simpl.
  - now rewrite String.eqb_refl.
  - destruct (String.eqb k' k) eqn:E; simpl.
    + now rewrite String.eqb_refl.
    + now rewrite E.
Qed.

Lemma get_set_ne d k k' v : k ≠ k' → get k' (set k v d) = get k' d.
Proof.
  intros Hne. induction d as [| [k0 v0] d IH]; simpl.
  - apply String.eqb_neq in Hne. now rewrite Hne.
  - destruct (String.eqb k0 k) eqn:E; simpl.
    + apply String.eqb_eq in E. subst k0.
      apply String.eqb_neq in Hne. now rewrite Hne.
    + now rewrite IH.
Qed.

(** Assignment keeps the position of a key that is there and appends a key
    that is not: iteration is in order of first insertion. *)
Lemma keys_set d k v :
  keys (set k v d) = if mem k d then keys d else keys d ++ [k].
Proof.
  unfold mem, keys. induction d as [| [k' v'] d IH]; simpl; [reflexivity |].
  destruct (String.eqb_spec k' k) as [-> | Hne]; simpl; [reflexivity |].
  rewrite IH. now destruct (get k d).
Qed.

End Facts.

End OrderedDictFacts.

(** ** The configuration parser *)

Module ParserFacts.
Import Py OrderedDict OrderedDictFacts PyFacts.

Lemma unpack_key_value_exn (cfg : bytes) (e : exn) :
  unpack_key_value cfg = Raise e → e = ValueError ∨ e = UnicodeDecodeError.
Proof.
  unfold unpack_key_value.
  destruct (comprehension decode (bytes_split1 LF cfg)) as [l | e'] eqn:E; simpl.
  - destruct l as [| k [| v [| x l]]]; intros [= <-]; now left.
  - intros [= <-]. right. eapply comprehension_decode_exn. exact E.
Qed.

(** [store] never raises, and changes exactly one field of one record. *)
Lemma store_ok (n f v : string) (d : t (gmap string string)) :
  ∃ d', store n f v d = Ok d' ∧
        ∀ n' f', field_of d' n' f' =
                 if decide (n = n' ∧ f = f') then Some v else field_of d n' f'.
Proof.
  unfold store, mem. destruct (get n d) as [c |] eqn:E.
  - rewrite E. eexists. split; [reflexivity |].
    intros n' f'. unfold field_of.
    destruct (decide (n = n')) as [<- | Hn].
    + rewrite get_set_eq, E.
      destruct (decide (f = f')) as [<- | Hf].
      * rewrite lookup_insert_eq. now rewrite decide_True.
      * rewrite lookup_insert_ne by exact Hf. rewrite decide_False; tauto.
    + rewrite get_set_ne by exact Hn. rewrite decide_False; tauto.
  - rewrite get_set_eq. eexists. split; [reflexivity |].
    intros n' f'. unfold field_of.
    destruct (decide (n = n')) as [<- | Hn].
    + rewrite get_set_eq, E.
      destruct (decide (f = f')) as [<- | Hf].
      * rewrite lookup_insert_eq. now rewrite decide_True.
      * rewrite lookup_insert_ne by exact Hf. rewrite lookup_empty.
        rewrite decide_False; tauto.
    + rewrite !get_set_ne by exact Hn. rewrite decide_False; tauto.
Qed.

(** One turn of the loop stores the entry the specification retains, and
    does nothing on any other record. *)
Lemma parse_entry_spec (cfg : bytes) (d : t (gmap string string)) :
  parse_entry cfg d =
  match decoded cfg ≫= spec_retained with
  | Some (n, f, v) => store n f v d
  | None => Ok d
  end.
Proof.
  unfold parse_entry, decoded.
  destruct (unpack_key_value cfg) as [[k v] | e] eqn:E; simpl.
  - unfold spec_retained; simpl.
    destruct (index_0_split "." k) as (p0 & rest & Hs & Hi).
    rewrite Hi, Hs. simpl.
    destruct rest as [| n [| f [| x rest]]]; simpl;
      rewrite ?orb_true_r; try reflexivity.
    rewrite orb_false_r. destruct (String.eqb p0 "publicinbox"); reflexivity.
  - destruct (unpack_key_value_exn _ _ E) as [-> | ->]; reflexivity.
Qed.

Lemma parse_entry_skip (cfg : bytes) (d : t (gmap string string)) :
  decoded cfg ≫= spec_retained = None → parse_entry cfg d = Ok d.
Proof. intros H. now rewrite parse_entry_spec, H. Qed.

Lemma parse_entry_total (cfg : bytes) (d : t (gmap string string)) :
  ∃ d', parse_entry cfg d = Ok d'.
Proof.
  rewrite parse_entry_spec.
  destruct (decoded cfg ≫= spec_retained) as [[[n f] v] |]; [| eauto].
  destruct (store_ok n f v d) as (d' & H & _). eauto.
Qed.

Lemma parse_entries_total (cfgs : list bytes) (d : t (gmap string string)) :
  fst (parse_entries cfgs d) = Ok tt.
Proof.
  revert d. induction cfgs as [| cfg cfgs IH]; intros d; simpl; [reflexivity |].
  destruct (parse_entry_total cfg d) as [d' ->]. apply IH.
Qed.

(** The loop refines the specification's merger, whatever it starts from. *)
Lemma field_of_parse_entries (cfgs : list bytes) (d : t (gmap string string))
    (name field : string) :
  field_of (snd (parse_entries cfgs d)) name field =
  match spec_parse (omap decoded cfgs) name field with
  | Some v => Some v
  | None => field_of d name field
  end.
Proof.
  revert d. unfold spec_parse.
  induction cfgs as [| cfg cfgs IH]; intros d; [reflexivity |].
  cbn [parse_entries]. rewrite parse_entry_spec.
  cbn [omap list_omap]. fold (omap decoded cfgs).
  destruct (decoded cfg) as [e |]; cbn [mbind option_bind].
  2: { apply IH. }
  cbn [omap list_omap]. fold (omap spec_retained (omap decoded cfgs)).
  destruct (spec_retained e) as [[[n f] v] |].
  2: { apply IH. }
  destruct (store_ok n f v d) as (d' & -> & Hd').
  rewrite IH. cbn [spec_last_write].
  destruct (spec_last_write _ name field); [reflexivity |].
  rewrite Hd'.
  destruct (String.eqb_spec n name) as [-> | Hn];
    destruct (String.eqb_spec f field) as [-> | Hf]; simpl;
    (rewrite decide_True by tauto) || (rewrite decide_False by tauto);
    reflexivity.
Qed.

Lemma spec_last_write_app (a b : list (string * string * string))
    (name field : string) :
  spec_last_write (a ++ b) name field =
  match spec_last_write b name field with
  | Some v => Some v
  | None => spec_last_write a name field
  end.
Proof.
  induction a as [| [[n f] v] a IH]; simpl.
  - now destruct (spec_last_write b name field).
  - rewrite IH. now destruct (spec_last_write b name field).
Qed.

Lemma spec_last_write_none (ws : list (string * string * string))
    (name field : string) :
  (∀ v, ¬ In (name, field, v) ws) → spec_last_write ws name field = None.
Proof.
  induction ws as [| [[n f] v] ws IH]; intros H; simpl; [reflexivity |].
  rewrite IH by (intros v' Hin; apply (H v'); now right).
  destruct (String.eqb_spec n name) as [-> | Hn]; [| reflexivity].
  destruct (String.eqb_spec f field) as [-> | Hf]; [| reflexivity].
  exfalso. apply (H v). now left.
Qed.

Lemma spec_last_write_some (ws : list (string * string * string))
    (name field v : string) :
  spec_last_write ws name field = Some v → In (name, field, v) ws.
Proof.
  induction ws as [| [[n f] v0] ws IH]; simpl; [discriminate |].
  destruct (spec_last_write ws name field) as [v' |].
  - intros [= ->]. right. now apply IH.
  - destruct (String.eqb_spec n name) as [-> | Hn]; [| discriminate].
    destruct (String.eqb_spec f field) as [-> | Hf]; [| discriminate].
    intros [= ->]. now left.
Qed.

Lemma spec_retained_some (k v name field v' : string) :
  spec_retained (k, v) = Some (name, field, v') ↔
  str_split "." k = ["publicinbox"; name; field] ∧ v' = v.
Proof.
  unfold spec_retained. simpl.
  destruct (str_split "." k) as [| p0 [| n [| f [| x l]]]];
    try (split; [discriminate | intros [[=] _]]).
  destruct (String.eqb_spec p0 "publicinbox") as [-> | Hp].
  - split; [intros [= -> -> ->] | intros [[= -> ->] ->]]; auto.
  - split; [discriminate | intros [[= -> -> ->] _]; congruence].
Qed.

(** The last entry written to a (name, field) pair decides its value. *)
Lemma last_write_wins (pre post : list bytes) (cfg : bytes)
    (k v name field : string) :
  decoded cfg = Some (k, v) →
  str_split "." k = ["publicinbox"; name; field] →
  (∀ c k' v', In c post → decoded c = Some (k', v') →
              str_split "." k' ≠ ["publicinbox"; name; field]) →
  field_of (parsed (pre ++ cfg :: post)) name field = Some v.
Proof.
  intros Hdec Hsplit Hpost. unfold parsed.
  rewrite field_of_parse_entries. unfold spec_parse.
  rewrite omap_app. cbn [omap list_omap]. rewrite Hdec.
  fold (omap decoded post). rewrite omap_app. cbn [omap list_omap].
  assert (Hr : spec_retained (k, v) = Some (name, field, v))
    by (apply spec_retained_some; auto).
  rewrite Hr. fold (omap spec_retained (omap decoded post)).
  rewrite spec_last_write_app. cbn [spec_last_write].
  rewrite spec_last_write_none.
  - now rewrite !String.eqb_refl.
  - intros v' Hin. apply list_elem_of_In, list_elem_of_omap in Hin.
    destruct Hin as ([k' v0] & Hin & Hret).
    apply list_elem_of_omap in Hin. destruct Hin as (c & Hc & Hdc).
    apply spec_retained_some in Hret as [Hret _].
    apply list_elem_of_In in Hc. exact (Hpost c k' v0 Hc Hdc Hret).
Qed.

(** What a raw record built from a key without line feed decodes to. *)
Lemma decoded_raw_record (k v : string) :
  occurs LF_char k = false → is_str k = true → is_str v = true →
  decoded (raw_record k v) = Some (k, v).
Proof.
  intros Hlf Hk Hv. unfold decoded, unpack_key_value, raw_record.
  rewrite bytes_split1_cut by (apply encode_no_sep; exact Hlf).
  cbn [comprehension].
  rewrite (decode_encode k Hk), (decode_encode v Hv). reflexivity.
Qed.

Lemma occurs_app (c : ascii) (a b : string) :
  occurs c (a +:+ b) = occurs c a || occurs c b.
Proof.
  induction a as [| x a IH]; simpl; [reflexivity |].
  now rewrite IH, orb_assoc.
Qed.

Lemma split_dotted_key (name field : string) :
  occurs "." name = false → occurs "." field = false →
  str_split "." (dotted_key name field) = ["publicinbox"; name; field].
Proof.
  intros Hn Hf. unfold dotted_key.
  change ("publicinbox." +:+ name +:+ "." +:+ field)
    with ("publicinbox" +:+ String "." (name +:+ String "." field)).
  rewrite str_split_cut by reflexivity.
  rewrite str_split_cut by exact Hn.
  now rewrite str_split_whole.
Qed.

End ParserFacts.

(** ** Running the methods *)

Module RunFacts.
Import Py OrderedDict ParserFacts.

Section Run.
Context (rt : Runtime) (self : Settings).

(** [_parse_publicinbox_config] always returns normally. *)
Lemma parse_config_ok (s : State) :
  fst (_parse_publicinbox_config rt self s) = Ok tt.
Proof.
  unfold _parse_publicinbox_config, bind, get_pi_config, ret, _run_command,
    log, parse_loop.
  cbn [host_of Host.popen].
  destruct (truthy (pi_config s)); [reflexivity |].
  match goal with
  | |- context [negb ?b] => destruct (negb b)
  end; cbn [emit pi_config trace].
  all: match goal with
       | |- context [parse_entries ?l ?d0] =>
           pose proof (parse_entries_total l d0) as Ht;
           destruct (parse_entries l d0) as [r d']
       end; exact Ht.
Qed.

(** A filled cache is kept; an empty one is replaced by the loop's result
    on the NUL-separated output of [git config]. *)
Lemma parse_config_cache (s : State) :
  pi_config (snd (_parse_publicinbox_config rt self s))
  = if truthy (pi_config s) then pi_config s
    else parsed (bytes_split NUL
                   (stdout (subprocess_run rt (trace s) (git_list_command rt self)))).
Proof.
  unfold _parse_publicinbox_config, bind, get_pi_config, ret, _run_command,
    log, parse_loop, parsed, empty.
  cbn [host_of Host.popen]. fold (host_of rt). fold (git_list_command rt self).
  destruct (pi_config s) as [| x d] eqn:E; cbn [truthy fst snd].
  - match goal with
    | |- context [negb ?b] => destruct (negb b)
    end; cbn [emit pi_config trace]; rewrite E;
      match goal with
      | |- context [parse_entries ?l ?d0] => destruct (parse_entries l d0) as [r d']
      end; reflexivity.
  - exact E.
Qed.

(** What the method adds to the history: the [git config] command and, if
    that exits non-zero, one error record about its exit status.  The
    records of the output add nothing. *)
Lemma parse_config_trace (s : State) :
  let c := git_list_command rt self in
  let p := subprocess_run rt (trace s) c in
  trace (snd (_parse_publicinbox_config rt self s))
  = trace s ++
    (if truthy (pi_config s) then []
     else Run c p ::
          (if (returncode p =? 0)%Z then []
           else [Log ERROR "Error (%s) when reading public-inbox config: %s"
                     [AInt (returncode p); ABytes (stderr p)]])).
Proof.
  intros c p. subst c p.
  unfold _parse_publicinbox_config, bind, get_pi_config, ret, _run_command,
    log, parse_loop.
  cbn [host_of Host.popen]. fold (host_of rt). fold (git_list_command rt self).
  destruct (truthy (pi_config s)); cbn [fst snd]; [now rewrite app_nil_r |].
  destruct (returncode _ =? 0)%Z; cbn [negb emit pi_config trace];
    match goal with
    | |- context [parse_entries ?l ?d0] => destruct (parse_entries l d0) as [r d']
    end; cbn [snd set_pi_config trace emit]; rewrite <- ?app_assoc; reflexivity.
Qed.

(** [_get_publicinbox_conf] parses if it has to and then runs the record
    loop on the cache. *)
Lemma get_conf_run (mlist : MailingList) (s : State) :
  _get_publicinbox_conf rt self mlist s
  = (Ok (find_conf (values (pi_config (snd (_parse_publicinbox_config rt self s))))
                   (posting_address mlist) (list_id mlist)),
     snd (_parse_publicinbox_config rt self s)).
Proof.
  unfold _get_publicinbox_conf, bind, get_pi_config, ret.
  pose proof (parse_config_ok s) as Hok.
  destruct (_parse_publicinbox_config rt self s) as [r s1].
  simpl in Hok. subst r. reflexivity.
Qed.

End Run.

End RunFacts.

Module Parser.
Import Py OrderedDict OrderedDictFacts PyFacts ParserFacts RunFacts.

(** C1.  Take any sequence of raw records that holds the record of
    [publicinbox.<name>.<field>] with value [v], where [name] and [field]
    contain neither a dot nor a line feed, key and value are strings, and no
    later record of the sequence decodes to a key with the same name and
    field.  Then the loop ends without an exception and looking [field] up
    in the record of [name] gives back exactly [v]. *)
Theorem parse_then_lookup_recovers_value
    (pre post : list bytes) (name field v : string) :
  occurs "." name = false →
  occurs "." field = false →
  occurs LF_char name = false →
  occurs LF_char field = false →
  is_str (dotted_key name field) = true →
  is_str v = true →
  (∀ c k' v', In c post → decoded c = Some (k', v') →
              str_split "." k' ≠ ["publicinbox"; name; field]) →
  let cfgs := pre ++ raw_record (dotted_key name field) v :: post in
  fst (parse_entries cfgs empty) = Ok tt ∧
  field_of (parsed cfgs) name field = Some v ∧
  (∀ rt self s,
     truthy (pi_config s) = false →
     bytes_split NUL (stdout (subprocess_run rt (trace s) (git_list_command rt self)))
     = cfgs →
     let r := _parse_publicinbox_config rt self s in
     fst r = Ok tt ∧ field_of (pi_config (snd r)) name field = Some v).
Proof.
  intros Hdn Hdf Hln Hlf Hk Hv Hpost cfgs.
  assert (Hfield : field_of (parsed cfgs) name field = Some v).
  { apply (last_write_wins pre post _ (dotted_key name field) v name field).
    - apply decoded_raw_record; [| exact Hk | exact Hv].
      unfold dotted_key. rewrite !occurs_app, Hln, Hlf. reflexivity.
    - now apply split_dotted_key.
    - exact Hpost. }
  split; [apply parse_entries_total |]. split; [exact Hfield |].
  intros rt self s Hempty Hout r. split; [apply parse_config_ok |].
  subst r. now rewrite parse_config_cache, Hempty, Hout.
Qed.

Lemma parse_then_lookup_recovers_value_witness :
  field_of
    (parsed
       ([raw_record "core.bare" "true";
         raw_record "publicinbox.test.url" "http://old/"] ++
        raw_record (dotted_key "test" "url") "http://x/list/" ::
        [raw_record "publicinbox.test.address" "test@example.com";
         [x66; x6f; x6f]; []]))
    "test" "url" = Some "http://x/list/".
Proof.
  apply (parse_then_lookup_recovers_value
           [raw_record "core.bare" "true";
            raw_record "publicinbox.test.url" "http://old/"]
           [raw_record "publicinbox.test.address" "test@example.com";
            [x66; x6f; x6f]; []]
           "test" "url" "http://x/list/");
    try reflexivity.
  intros c k' v' Hin Hdec.
  destruct Hin as [<- | [<- | [<- | []]]]; vm_compute in Hdec;
    try discriminate.
  injection Hdec as <- <-. vm_compute. discriminate.
Defined.

(** C5.  The cache the loop builds is the specification's merger applied to
    the decoded records: a (name, field) pair has the value of the last
    record whose key splits on ["."] into exactly [publicinbox], [name],
    [field].  Hence every pair present comes from such a record, a record
    whose key has another number of parts or another first part changes
    nothing, and of two writes to one pair the later one stays. *)
Theorem parse_keeps_only_publicinbox_triples (cfgs : list bytes) :
  (∀ name field,
     field_of (parsed cfgs) name field
     = spec_parse (omap decoded cfgs) name field) ∧
  (∀ name field v,
     field_of (parsed cfgs) name field = Some v →
     ∃ c k, In c cfgs ∧ decoded c = Some (k, v) ∧
            str_split "." k = ["publicinbox"; name; field]) ∧
  (∀ c k v d,
     decoded c = Some (k, v) →
     length (str_split "." k) ≠ 3 ∨ hd "" (str_split "." k) ≠ "publicinbox" →
     parse_entry c d = Ok d) ∧
  (∀ pre post c k v name field,
     cfgs = pre ++ c :: post →
     decoded c = Some (k, v) →
     str_split "." k = ["publicinbox"; name; field] →
     (∀ c' k' v', In c' post → decoded c' = Some (k', v') →
                  str_split "." k' ≠ ["publicinbox"; name; field]) →
     field_of (parsed cfgs) name field = Some v).
Proof.
  assert (Hspec : ∀ name field,
             field_of (parsed cfgs) name field
             = spec_parse (omap decoded cfgs) name field).
  { intros name field. unfold parsed. rewrite field_of_parse_entries.
    now destruct (spec_parse (omap decoded cfgs) name field). }
  split; [exact Hspec |]. split; [| split].
  - intros name field v H. rewrite Hspec in H.
    apply spec_last_write_some, list_elem_of_In, list_elem_of_omap in H.
    destruct H as ([k v0] & Hin & Hret).
    apply list_elem_of_omap in Hin. destruct Hin as (c & Hc & Hdc).
    apply spec_retained_some in Hret as [Hsplit ->].
    exists c, k. repeat split; auto. now apply list_elem_of_In.
  - intros c k v d Hdec Hbad. apply parse_entry_skip. rewrite Hdec. simpl.
    destruct (spec_retained (k, v)) as [[[n f] v'] |] eqn:E; [| reflexivity].
    apply spec_retained_some in E as [E _]. rewrite E in Hbad.
    destruct Hbad as [Hbad | Hbad]; now exfalso; apply Hbad.
  - intros pre post c k v name field -> Hdec Hsplit Hpost.
    eapply last_write_wins; eauto.
Qed.

Lemma parse_keeps_only_publicinbox_triples_witness :
  parse_entry (raw_record "publicinbox.a.b.c" "v") [("x", ∅)] = Ok [("x", ∅)] ∧
  parse_entry (raw_record "core.a.b" "v") [("x", ∅)] = Ok [("x", ∅)] ∧
  field_of (parsed [raw_record "publicinbox.l.url" "one";
                    raw_record "publicinbox.l.url" "two"]) "l" "url"
  = Some "two".
Proof.
  pose proof (parse_keeps_only_publicinbox_triples
                [raw_record "publicinbox.l.url" "one";
                 raw_record "publicinbox.l.url" "two"])
    as (_ & _ & Hskip & Hlast).
  split; [| split].
  - apply (Hskip _ "publicinbox.a.b.c" "v"); [reflexivity |].
    left. vm_compute. lia.
  - apply (Hskip _ "core.a.b" "v"); [reflexivity |].
    right. vm_compute. discriminate.
  - apply (Hlast [raw_record "publicinbox.l.url" "one"] []
                 (raw_record "publicinbox.l.url" "two")
                 "publicinbox.l.url" "two" "l" "url");
      try reflexivity.
    intros c' k' v' [].
Defined.

(** C6.  The loop is total and raises nothing: a record that has no line
    feed to split at, or one of whose halves is not valid UTF-8, is not well
    formed; a record that is not well formed leaves the cache as it is; and
    the loop over all records gives what the loop over the well-formed ones
    gives.  The method around the loop returns normally as well, and the
    only log record it can write is the one about the exit status of
    [git config]: no record of the output is reported. *)
Theorem parse_skips_malformed_silently
    (cfgs : list bytes) (d : t (gmap string string)) :
  fst (parse_entries cfgs d) = Ok tt ∧
  parse_entries cfgs d = parse_entries (List.filter well_formed cfgs) d ∧
  (∀ c, ¬ In LF c → well_formed c = false) ∧
  (∀ kb vb, ¬ In LF kb → utf8_valid kb = false ∨ utf8_valid vb = false →
            well_formed (kb ++ LF :: vb) = false) ∧
  (∀ c d0, well_formed c = false → parse_entry c d0 = Ok d0) ∧
  (∀ (rt : Runtime) self s,
     let c := git_list_command rt self in
     let p := subprocess_run rt (trace s) c in
     fst (_parse_publicinbox_config rt self s) = Ok tt ∧
     trace (snd (_parse_publicinbox_config rt self s))
     = trace s ++
       (if truthy (pi_config s) then []
        else Run c p ::
             (if (returncode p =? 0)%Z then []
              else [Log ERROR "Error (%s) when reading public-inbox config: %s"
                        [AInt (returncode p); ABytes (stderr p)]]))).
Proof.
  split; [apply parse_entries_total |].
  assert (Hskip : ∀ c d0, well_formed c = false → parse_entry c d0 = Ok d0).
  { intros c d0 H. apply parse_entry_skip. unfold well_formed in H.
    now destruct (decoded c). }
  split; [| split; [| split; [| split]]].
  - revert d. induction cfgs as [| c cfgs IH]; intros d; [reflexivity |].
    cbn [List.filter parse_entries].
    destruct (well_formed c) eqn:E.
    + cbn [parse_entries]. destruct (parse_entry c d); [apply IH | reflexivity].
    + rewrite (Hskip c d E). apply IH.
  - intros c Hc. unfold well_formed, decoded, unpack_key_value.
    rewrite bytes_split1_whole by exact Hc. cbn [comprehension].
    destruct (decode c); reflexivity.
  - intros kb vb Hkb Hbad. unfold well_formed, decoded, unpack_key_value.
    rewrite bytes_split1_cut by exact Hkb. cbn [comprehension].
    unfold decode. destruct Hbad as [-> | ->]; [reflexivity |].
    destruct (utf8_valid kb); reflexivity.
  - exact Hskip.
  - intros rt self s c p. split; [apply parse_config_ok |].
    apply parse_config_trace.
Qed.

Lemma parse_skips_malformed_silently_witness :
  well_formed [x66; x6f; x6f] = false ∧
  well_formed ([x6b] ++ LF :: [xc3; x28]) = false ∧
  parse_entry [xff; x0a; x61] [("x", ∅)] = Ok [("x", ∅)].
Proof.
  pose proof (parse_skips_malformed_silently [] [])
    as (_ & _ & Hnolf & Hbad & Hskip & _).
  split; [| split].
  - apply Hnolf. vm_compute. intros [H | [H | [H | []]]]; discriminate.
  - apply Hbad; [| right; reflexivity].
    vm_compute. intros [H | []]; discriminate.
  - apply Hskip. reflexivity.
Defined.

End Parser.

(** ** The record lookup *)

Module LookupFacts.
Import Py OrderedDict.

Lemma matchesb_iff (address listid : string) (c : gmap string string) :
  matchesb address listid c = true ↔ matches address listid c.
Proof.
  unfold matchesb, matches.
  rewrite orb_true_iff, !bool_decide_eq_true. reflexivity.
Qed.

Lemma find_conf_cons (c : gmap string string) (confs : list (gmap string string))
    (address listid : string) :
  find_conf (c :: confs) address listid =
  if matchesb address listid c then c else find_conf confs address listid.
Proof.
  unfold matchesb. cbn [find_conf].
  destruct (bool_decide (c !! "address" = Some address)); [reflexivity |].
  destruct (bool_decide (c !! "listid" = Some listid)); reflexivity.
Qed.

(** Records that match on neither field are passed over. *)
Lemma find_conf_skip (pre rest : list (gmap string string))
    (address listid : string) :
  (∀ x, In x pre → ¬ matches address listid x) →
  find_conf (pre ++ rest) address listid = find_conf rest address listid.
Proof.
  induction pre as [| x pre IH]; intros H; [reflexivity |].
  rewrite <- app_comm_cons, find_conf_cons.
  destruct (matchesb address listid x) eqn:E.
  - apply matchesb_iff in E. exfalso. apply (H x); [now left | exact E].
  - apply IH. intros y Hy. apply H. now right.
Qed.

Lemma find_conf_none (confs : list (gmap string string)) (address listid : string) :
  (∀ x, In x confs → ¬ matches address listid x) →
  find_conf confs address listid = ∅.
Proof.
  intros H. rewrite <- (app_nil_r confs). now rewrite find_conf_skip.
Qed.

Lemma find_conf_find (confs : list (gmap string string)) (address listid : string) :
  find_conf confs address listid
  = default ∅ (List.find (matchesb address listid) confs).
Proof.
  induction confs as [| c confs IH]; [reflexivity |].
  rewrite find_conf_cons. cbn [List.find].
  now destruct (matchesb address listid c).
Qed.

Lemma first_with_none (fld want : string) (confs : list (gmap string string)) :
  (∀ x, In x confs → x !! fld ≠ Some want) → first_with fld want confs = None.
Proof.
  induction confs as [| c confs IH]; intros H; [reflexivity |].
  cbn [first_with]. rewrite bool_decide_eq_false_2 by (apply H; now left).
  apply IH. intros x Hx. apply H. now right.
Qed.

End LookupFacts.

Module Lookup.
Import Py OrderedDict OrderedDictFacts LookupFacts.

(** C2.  The lookup goes through the records in the order of the mapping
    (the order in which their names were first assigned); on each record it
    tests [address] and then [listid], returns the record if either test
    succeeds and goes on to the next record if both fail; with no matching
    record it returns the empty dictionary.  So the result is the first
    record that matches on either field. *)
Theorem find_conf_first_match_per_record
    (confs : list (gmap string string)) (address listid : string) :
  (∀ c rest,
     confs = c :: rest →
     find_conf confs address listid
     = if bool_decide (c !! "address" = Some address) then c
       else if bool_decide (c !! "listid" = Some listid) then c
       else find_conf rest address listid) ∧
  (∀ pre c post,
     confs = pre ++ c :: post →
     (∀ x, In x pre → ¬ matches address listid x) →
     matches address listid c →
     find_conf confs address listid = c) ∧
  ((∀ x, In x confs → ¬ matches address listid x) →
   find_conf confs address listid = ∅) ∧
  (∀ (d : t (gmap string string)) k v,
     keys (set k v d) = if mem k d then keys d else keys d ++ [k]) ∧
  (∀ (rt : Runtime) self mlist s,
     let s' := snd (_parse_publicinbox_config rt self s) in
     _get_publicinbox_conf rt self mlist s
     = (Ok (find_conf (values (pi_config s'))
                      (posting_address mlist) (list_id mlist)), s')).
Proof.
  split; [| split; [| split; [| split]]].
  - intros c rest ->. reflexivity.
  - intros pre c post -> Hpre Hc.
    rewrite find_conf_skip by exact Hpre. rewrite find_conf_cons.
    apply matchesb_iff in Hc. now rewrite Hc.
  - apply find_conf_none.
  - intros d k v. apply keys_set.
  - intros rt self mlist s s'. subst s'. apply RunFacts.get_conf_run.
Qed.

Lemma find_conf_first_match_per_record_witness :
  find_conf [Demo.by_listid; Demo.by_address]
            "test@example.com" "test.example.com" = Demo.by_listid ∧
  find_conf [Demo.by_listid; Demo.by_address]
            "test@example.com" "new.example.com" = Demo.by_address ∧
  find_conf [Demo.by_listid; Demo.by_address]
            "nobody@example.com" "none.example.com" = ∅.
Proof.
  split; [| split].
  - apply (proj1 (proj2 (find_conf_first_match_per_record
                           [Demo.by_listid; Demo.by_address]
                           "test@example.com" "test.example.com"))
             [] Demo.by_listid [Demo.by_address]).
    + reflexivity.
    + intros x [].
    + right. reflexivity.
  - apply (proj1 (proj2 (find_conf_first_match_per_record
                           [Demo.by_listid; Demo.by_address]
                           "test@example.com" "new.example.com"))
             [Demo.by_listid] Demo.by_address []).
    + reflexivity.
    + intros x [<- | []] [H | H]; vm_compute in H; discriminate.
    + left. reflexivity.
  - apply (proj1 (proj2 (proj2 (find_conf_first_match_per_record
                                  [Demo.by_listid; Demo.by_address]
                                  "nobody@example.com" "none.example.com")))).
    intros x [<- | [<- | []]] [H | H]; vm_compute in H; discriminate.
Defined.

(** C3, as claimed, fails: with a first record that matches the list on
    [listid] only and a second one that matches it on [address], the lookup
    returns the first record, while trying every [address] before any
    [listid] would give the second. *)
Lemma find_conf_listid_shadows_address :
  find_conf [Demo.by_listid; Demo.by_address]
            "test@example.com" "test.example.com" = Demo.by_listid ∧
  spec_find_address_first [Demo.by_listid; Demo.by_address]
            "test@example.com" "test.example.com" = Demo.by_address ∧
  Demo.by_listid !! "address" ≠ Some "test@example.com" ∧
  Demo.by_address !! "address" = Some "test@example.com" ∧
  Demo.by_listid ≠ Demo.by_address.
Proof.
  repeat split; try reflexivity.
  - vm_compute. discriminate.
  - intros H. apply (f_equal (fun c : gmap string string => c !! "listid")) in H.
    vm_compute in H. discriminate.
Qed.

(** C3, amended.  The lookup returns the first record, in the order of the
    mapping, whose [address] equals the wanted address or whose [listid]
    equals the wanted list id, and the empty dictionary when there is none.
    This is the address-first result whenever no record in front of an
    address match matches on [listid]; in particular, when no record of the
    mapping matches on [address], it is the first record that matches on
    [listid].  A record that matches on [listid] does shadow every record
    behind it. *)
Theorem find_conf_first_match_either_field
    (confs : list (gmap string string)) (address listid : string) :
  find_conf confs address listid
  = default ∅ (List.find (matchesb address listid) confs) ∧
  ((∀ pre c post, confs = pre ++ c :: post → c !! "address" = Some address →
                  ∀ x, In x pre → x !! "listid" ≠ Some listid) →
   find_conf confs address listid
   = spec_find_address_first confs address listid) ∧
  ((∀ x, In x confs → x !! "address" ≠ Some address) →
   find_conf confs address listid
   = default ∅ (first_with "listid" listid confs)) ∧
  (∀ pre c post, confs = pre ++ c :: post →
                 (∀ x, In x pre → ¬ matches address listid x) →
                 c !! "listid" = Some listid →
                 find_conf confs address listid = c).
Proof.
  split; [apply find_conf_find |].
  assert (Hagree : ∀ l : list (gmap string string),
             (∀ pre c post, l = pre ++ c :: post → c !! "address" = Some address →
                            ∀ x, In x pre → x !! "listid" ≠ Some listid) →
             find_conf l address listid = spec_find_address_first l address listid).
  { induction l as [| c l IH]; intros H; [reflexivity |].
    unfold spec_find_address_first. cbn [find_conf first_with].
    destruct (bool_decide (c !! "address" = Some address)) eqn:Ea; [reflexivity |].
    destruct (bool_decide (c !! "listid" = Some listid)) eqn:El.
    - apply bool_decide_eq_true in El.
      rewrite first_with_none; [reflexivity |].
      intros x Hx Hax. apply in_split in Hx as (l1 & l2 & ->).
      apply (H (c :: l1) x l2 eq_refl Hax c); [now left | exact El].
    - rewrite IH; [reflexivity |].
      intros pre c' post -> Hc' x Hx.
      apply (H (c :: pre) c' post eq_refl Hc' x). now right. }
  split; [apply Hagree | split].
  - intros Hno. rewrite Hagree.
    + unfold spec_find_address_first. rewrite first_with_none by exact Hno.
      now destruct (first_with "listid" listid confs).
    + intros pre c post -> Hc. exfalso.
      apply (Hno c); [apply in_elt | exact Hc].
  - intros pre c post -> Hpre Hc.
    rewrite find_conf_skip by exact Hpre. rewrite find_conf_cons.
    unfold matchesb. rewrite (bool_decide_eq_true_2 _ Hc).
    now rewrite orb_true_r.
Qed.

Lemma find_conf_first_match_either_field_witness :
  find_conf [Demo.by_address; Demo.by_listid]
            "test@example.com" "test.example.com"
  = spec_find_address_first [Demo.by_address; Demo.by_listid]
            "test@example.com" "test.example.com" ∧
  find_conf [Demo.by_listid; Demo.by_address]
            "test@example.com" "test.example.com" = Demo.by_listid.
Proof.
  split.
  - apply (proj1 (proj2 (find_conf_first_match_either_field
                           [Demo.by_address; Demo.by_listid]
                           "test@example.com" "test.example.com"))).
    intros pre c post Heq Hc x Hx.
    destruct pre as [| p0 [| p1 pre]]; [destruct Hx | |].
    + simpl in Heq. inversion Heq; subst. vm_compute in Hc. discriminate.
    + destruct pre; simpl in Heq; discriminate.
  - apply (proj2 (proj2 (proj2 (find_conf_first_match_either_field
                                  [Demo.by_listid; Demo.by_address]
                                  "test@example.com" "test.example.com")))
             [] Demo.by_listid [Demo.by_address]).
    + reflexivity.
    + intros x [].
    + reflexivity.
Defined.

End Lookup.

(** ** Effects of the methods *)

Module EffectFacts.
Import Py OrderedDict RunFacts.

Lemma bind_ext {A B : Type} (m1 m2 : M A) (k1 k2 : A → M B) (s : State) :
  m1 s = m2 s → (∀ a s', k1 a s' = k2 a s') → bind m1 k1 s = bind m2 k2 s.
Proof.
  intros Hm Hk. unfold bind. rewrite Hm.
  destruct (m2 s) as [[a | e] s']; [apply Hk | reflexivity].
Qed.

Lemma commands_app (a b : list event) :
  commands (a ++ b) = commands a ++ commands b.
Proof. apply omap_app. Qed.

Lemma logged_app (l : level) (a b : list event) :
  logged l (a ++ b) = logged l a ++ logged l b.
Proof. apply omap_app. Qed.

Lemma commands_log (l : level) (fmt : string) (a : list logarg) (s : State) :
  commands (trace (emit (Log l fmt a) s)) = commands (trace s).
Proof. cbn [emit trace]. rewrite commands_app. apply app_nil_r. Qed.

Lemma commands_run (c : command) (p : CompletedProcess) (s : State) :
  commands (trace (emit (Run c p) s)) = commands (trace s) ++ [c].
Proof. cbn [emit trace]. now rewrite commands_app. Qed.

Lemma logged_run (l : level) (c : command) (p : CompletedProcess) (s : State) :
  logged l (trace (emit (Run c p) s)) = logged l (trace s).
Proof. cbn [emit trace]. rewrite logged_app. apply app_nil_r. Qed.

Lemma logged_info_error (fmt : string) (a : list logarg) (s : State) :
  logged ERROR (trace (emit (Log INFO fmt a) s)) = logged ERROR (trace s).
Proof. cbn [emit trace]. rewrite logged_app. apply app_nil_r. Qed.

Lemma logged_error_error (fmt : string) (a : list logarg) (s : State) :
  logged ERROR (trace (emit (Log ERROR fmt a) s))
  = logged ERROR (trace s) ++ [(fmt, a)].
Proof. cbn [emit trace]. now rewrite logged_app. Qed.

Section Effects.
Context (rt : Runtime) (self : Settings).

(** A command run in bytes mode on a host whose library calls return. *)
Lemma run_command_returns (argv : list string) (stdin : option string)
    (kw : option (gmap string string)) (s : State) :
  let c := {| args := argv; input := stdin; env := command_env rt self kw;
              text := false |} in
  _run_command rt self argv false stdin kw s
  = (Ok (subprocess_run rt (trace s) c),
     emit (Run c (subprocess_run rt (trace s) c)) s).
Proof. reflexivity. Qed.

Lemma init_argv_returns (mlist : MailingList) :
  init_argv rt self mlist = Ok (init_args rt self mlist).
Proof. reflexivity. Qed.

(** A reload empties the cache, runs the reload command if there is one
    and nothing else, and returns normally. *)
Lemma reload_run (s : State) :
  ∃ s', _reload_public_inbox rt self s = (Ok tt, s') ∧
        pi_config s' = empty ∧
        commands (trace s') = commands (trace s) ++ reload_commands rt self.
Proof.
  unfold _reload_public_inbox, reload_commands, bind, put_pi_config, ret,
    _run_command, log, lift.
  cbn [host_of Host.popen Host.shlex_split].
  destruct (str_truthy (reload_command self)); cbn [negb].
  - match goal with
    | |- context [negb ?b] => destruct (negb b)
    end; eexists; (split; [reflexivity |]); split; try reflexivity;
      rewrite ?commands_log, commands_run; reflexivity.
  - eexists. split; [reflexivity |]. split; [reflexivity |].
    cbn [set_pi_config trace]. now rewrite app_nil_r.
Qed.

Lemma list_url_ok (mlist : MailingList) (s : State) :
  ∃ url, list_url rt self mlist s
         = (Ok url, snd (_parse_publicinbox_config rt self s)).
Proof.
  unfold list_url, bind. rewrite get_conf_run.
  destruct (conf_truthy _); eexists; reflexivity.
Qed.

(** [permalink] is [list_url] followed by the trimming and the join. *)
Lemma permalink_run (mlist : MailingList) (msg : Message) (s : State)
    (url : option string) (s' : State) :
  list_url rt self mlist s = (Ok url, s') →
  permalink rt self mlist msg s
  = (Ok (match url with
         | Some u => if str_truthy u
                     then Some (urljoin rt u (trim_msg_id (message_id msg) +:+ "/"))
                     else None
         | None => None
         end), s').
Proof.
  intros H. unfold permalink, bind. rewrite H.
  destruct url as [u |]; [| reflexivity].
  destruct (str_truthy u); reflexivity.
Qed.

Lemma permalink_ok (mlist : MailingList) (msg : Message) (s : State) :
  ∃ url, permalink rt self mlist msg s
         = (Ok url, snd (_parse_publicinbox_config rt self s)).
Proof.
  destruct (list_url_ok mlist s) as [u Hu].
  rewrite (permalink_run _ _ _ _ _ Hu). eauto.
Qed.

(** [_ensure_list_created] returns normally where the library calls do. *)
Lemma ensure_ok (mlist : MailingList) (s : State) :
  ∃ b s', _ensure_list_created rt self mlist s = (Ok b, s').
Proof.
  unfold _ensure_list_created.
  destruct (negb (str_truthy (auto_create self))); [unfold ret; eauto |].
  unfold bind at 1. unfold log at 1. unfold bind at 1. rewrite get_conf_run.
  destruct (conf_truthy _); [unfold ret; eauto |].
  unfold bind at 1. unfold log at 1.
  destruct (_ || _); [unfold ret; eauto |].
  unfold bind at 1. unfold log at 1.
  unfold bind at 1. unfold lift at 1. rewrite init_argv_returns.
  unfold bind at 1. rewrite run_command_returns. cbv beta iota zeta.
  match goal with
  | |- context [negb ?b] => destruct (negb b)
  end.
  - unfold bind, log, ret. eauto.
  - unfold bind at 1. unfold log at 1. unfold bind at 1.
    match goal with
    | |- context [_reload_public_inbox _ self ?s0] =>
        destruct (reload_run s0) as (s' & -> & _)
    end. unfold ret. eauto.
Qed.

(** The path of [_ensure_list_created] through [public-inbox-init]. *)
Lemma ensure_init_run (mlist : MailingList) (s : State)
    (c : gmap string string) (s1 : State) :
  str_truthy (auto_create self) = true →
  _get_publicinbox_conf rt self mlist (emit (log_attempt mlist) s) = (Ok c, s1) →
  conf_truthy c = false →
  archive_policy mlist = public →
  advertised mlist = true →
  let cmd := init_command rt self mlist in
  let proc := subprocess_run rt (trace (at_init s1)) cmd in
  let s3 := emit (Run cmd proc) (at_init s1) in
  _ensure_list_created rt self mlist s =
  if (returncode proc =? 0)%Z
  then
    (Ok true,
     snd (_reload_public_inbox rt self
            (emit (Log INFO "Initialised public-inbox archive for list %s"
                       [AStr (list_name mlist)]) s3)))
  else
    (Ok false,
     emit (Log ERROR "Unable to initialise public-inbox archive for list %s: %s"
               [AStr (list_name mlist); ABytes (stderr proc)]) s3).
Proof.
  intros Hauto Hget Hc Hpol Hadv cmd proc s3.
  unfold _ensure_list_created. rewrite Hauto. cbn [negb].
  unfold bind at 1. unfold log at 1. fold (log_attempt mlist).
  unfold bind at 1. rewrite Hget, Hc.
  unfold bind at 1. unfold log at 1.
  rewrite Hpol, Hadv. cbn [ArchivePolicy_eqb negb orb].
  unfold bind at 1. unfold log at 1.
  unfold bind at 1. unfold lift at 1. rewrite init_argv_returns.
  unfold bind at 1. rewrite run_command_returns. cbv beta iota zeta.
  fold (at_init s1). fold (init_command rt self mlist). fold cmd. fold proc.
  fold s3.
  destruct (returncode proc =? 0)%Z; cbn [negb].
  - unfold bind at 1. unfold log at 1. unfold bind at 1.
    destruct (reload_run
                (emit (Log INFO "Initialised public-inbox archive for list %s"
                           [AStr (list_name mlist)]) s3)) as (s' & -> & _).
    reflexivity.
  - reflexivity.
Qed.

End Effects.

(** The delivery, on any host. *)
Section Deliver.
Context (h : Host.t) (self : Settings).

(** A command run in text mode: what starting the program raises leaves no
    trace, and a pipe that is no text raises once the program has run. *)
Lemma run_command_text (argv : list string) (stdin : option string)
    (kw : option (gmap string string)) (s : State) :
  let c := {| args := argv; input := stdin; env := command_env h self kw;
              text := true |} in
  _run_command h self argv true stdin kw s
  = match Host.popen h (trace s) c with
    | Raise e => (Raise e, s)
    | Ok p => (if decodes p then Ok p else Raise UnicodeDecodeError,
               emit (Run c p) s)
    end.
Proof.
  cbv zeta. unfold _run_command.
  destruct (Host.popen h (trace s) _) as [p | e]; [| reflexivity].
  unfold decodes, decode.
  destruct (utf8_valid (stdout p)), (utf8_valid (stderr p)); reflexivity.
Qed.

(** What [archive_message] does once the list is known to exist and its
    permalink is computed depends on the delivery agent alone. *)
Lemma deliver_run (mlist : MailingList) (msg : Message) (s s1 s2 : State)
    (url : option string) :
  _ensure_list_created h self mlist s = (Ok true, s1) →
  permalink h self mlist msg s1 = (Ok url, s2) →
  let cmd := mda_command h self mlist msg in
  archive_message h self mlist msg s
  = match Host.popen h (trace s2) cmd with
    | Raise e => (Raise e, s2)
    | Ok proc =>
        if decodes proc
        then (Ok url, emit (delivery_record msg url proc) (emit (Run cmd proc) s2))
        else (Raise UnicodeDecodeError, emit (Run cmd proc) s2)
    end.
Proof.
  intros Hens Hperm cmd.
  unfold archive_message. unfold bind at 1. rewrite Hens. cbn [negb].
  unfold bind at 1. rewrite Hperm.
  unfold bind at 1. rewrite run_command_text. cbv zeta.
  fold (mda_command h self mlist msg). fold cmd.
  destruct (Host.popen h (trace s2) cmd) as [proc | e]; [| reflexivity].
  destruct (decodes proc); [| reflexivity].
  unfold delivery_record.
  destruct (returncode proc =? 0)%Z; reflexivity.
Qed.

(** A call that does not get past the list-created check ends there. *)
Lemma deliver_not (mlist : MailingList) (msg : Message) (s s1 : State) :
  _ensure_list_created h self mlist s = (Ok false, s1) →
  archive_message h self mlist msg s = (Ok None, s1).
Proof.
  intros Hens. unfold archive_message, bind. now rewrite Hens.
Qed.

Lemma commands_delivery (msg : Message) (url : option string)
    (proc : CompletedProcess) (s : State) :
  commands (trace (emit (delivery_record msg url proc) s)) = commands (trace s).
Proof.
  unfold delivery_record. destruct (returncode proc =? 0)%Z; apply commands_log.
Qed.

Lemma logged_delivery (msg : Message) (url : option string)
    (proc : CompletedProcess) (s : State) :
  logged ERROR (trace (emit (delivery_record msg url proc) s))
  = logged ERROR (trace s) ++
    (if (returncode proc =? 0)%Z then []
     else [("%s: public-inbox subprocess exited with error(%s): %s",
            [AStr (message_id msg); AInt (returncode proc);
             AStr (text_of (stderr proc))])]).
Proof.
  unfold delivery_record. destruct (returncode proc =? 0)%Z.
  - now rewrite logged_info_error, app_nil_r.
  - apply logged_error_error.
Qed.

End Deliver.

(** Two runtimes that differ only in the answers of subprocesses fed on
    standard input are not told apart by the methods run before delivery. *)
Section TwoRuntimes.
Context (rt1 rt2 : Host.t) (self : Settings).
Hypothesis Hsame : same_but_stdin rt1 rt2.

Lemma command_env_ext (kw : option (gmap string string)) :
  command_env rt1 self kw = command_env rt2 self kw.
Proof.
  unfold command_env. destruct Hsame as (-> & _). reflexivity.
Qed.

Lemma run_command_ext (argv : list string) (kw : option (gmap string string))
    (s : State) :
  _run_command rt1 self argv false None kw s
  = _run_command rt2 self argv false None kw s.
Proof.
  unfold _run_command. rewrite command_env_ext.
  destruct Hsame as (_ & _ & _ & _ & Hrun).
  now rewrite Hrun.
Qed.

Lemma parse_config_ext (s : State) :
  _parse_publicinbox_config rt1 self s = _parse_publicinbox_config rt2 self s.
Proof.
  unfold _parse_publicinbox_config.
  apply bind_ext; [reflexivity |]. intros d s'.
  destruct (truthy d); [reflexivity |].
  apply bind_ext; [apply run_command_ext | reflexivity].
Qed.

Lemma get_conf_ext (mlist : MailingList) (s : State) :
  _get_publicinbox_conf rt1 self mlist s = _get_publicinbox_conf rt2 self mlist s.
Proof.
  unfold _get_publicinbox_conf.
  apply bind_ext; [apply parse_config_ext | reflexivity].
Qed.

Lemma permalink_ext (mlist : MailingList) (msg : Message) (s : State) :
  permalink rt1 self mlist msg s = permalink rt2 self mlist msg s.
Proof.
  unfold permalink, list_url.
  apply bind_ext.
  - apply bind_ext; [apply get_conf_ext | reflexivity].
  - intros [u |] s'; [| reflexivity].
    destruct Hsame as (_ & Hjoin & _). now rewrite Hjoin.
Qed.

Lemma reload_ext (s : State) :
  _reload_public_inbox rt1 self s = _reload_public_inbox rt2 self s.
Proof.
  unfold _reload_public_inbox.
  apply bind_ext; [reflexivity |]. intros _ s'.
  destruct (negb (str_truthy (reload_command self))); [reflexivity |].
  destruct Hsame as (_ & _ & _ & Hsplit & _). rewrite Hsplit.
  apply bind_ext; [reflexivity |]. intros argv s''.
  apply bind_ext; [apply run_command_ext | reflexivity].
Qed.

Lemma init_argv_ext (mlist : MailingList) :
  init_argv rt1 self mlist = init_argv rt2 self mlist.
Proof.
  unfold init_argv. destruct Hsame as (_ & Hjoin & Hpath & _).
  now rewrite Hjoin, Hpath.
Qed.

Lemma ensure_ext (mlist : MailingList) (s : State) :
  _ensure_list_created rt1 self mlist s = _ensure_list_created rt2 self mlist s.
Proof.
  unfold _ensure_list_created.
  destruct (negb (str_truthy (auto_create self))); [reflexivity |].
  apply bind_ext; [reflexivity |]. intros _ s1.
  apply bind_ext; [apply get_conf_ext |]. intros c s2.
  destruct (conf_truthy c); [reflexivity |].
  apply bind_ext; [reflexivity |]. intros _ s3.
  destruct (_ || _); [reflexivity |].
  apply bind_ext; [reflexivity |]. intros _ s4.
  rewrite init_argv_ext.
  apply bind_ext; [reflexivity |]. intros argv s5.
  apply bind_ext; [apply run_command_ext |]. intros p s6.
  destruct (negb (returncode p =? 0)%Z); [reflexivity |].
  apply bind_ext; [reflexivity |]. intros _ s7.
  apply bind_ext; [apply reload_ext | reflexivity].
Qed.

End TwoRuntimes.

End EffectFacts.

(** ** The archiver's operations *)

Module Archiver.
Import Py OrderedDict PyFacts RunFacts EffectFacts.

(** C4.  When the looked-up URL of the list is present and not empty,
    [permalink] returns the join of that URL with the trimmed message
    identifier followed by ["/"], where trimming removes exactly one leading
    ["<"] and exactly one trailing [">"] (each if it is there); with the
    join of the runtime mapping [http://x/list/] and [abc@d/] to
    [http://x/list/abc@d/], the identifier [<abc@d>] gives that link.  When
    the looked-up URL is absent or empty, [permalink] returns [None]
    whatever the identifier.  The lookup itself always returns. *)
Theorem permalink_trims_and_joins
    (rt : Runtime) (self : Settings) (mlist : MailingList) (msg : Message)
    (s : State) :
  (∀ u s', list_url rt self mlist s = (Ok (Some u), s') → u ≠ "" →
           permalink rt self mlist msg s
           = (Ok (Some (urljoin rt u (trim_msg_id (message_id msg) +:+ "/"))), s')) ∧
  (∀ url s', list_url rt self mlist s = (Ok url, s') →
             url = None ∨ url = Some "" →
             permalink rt self mlist msg s = (Ok None, s')) ∧
  (∃ url s', list_url rt self mlist s = (Ok url, s')) ∧
  (∀ body, trim_msg_id ("<" +:+ body +:+ ">") = body) ∧
  (∀ body, endswith body ">" = false → trim_msg_id ("<" +:+ body) = body) ∧
  (∀ body, startswith (body +:+ ">") "<" = false →
           trim_msg_id (body +:+ ">") = body) ∧
  (∀ id, startswith id "<" = false → endswith id ">" = false →
         trim_msg_id id = id) ∧
  (∀ s', list_url rt self mlist s = (Ok (Some "http://x/list/"), s') →
         message_id msg = "<abc@d>" →
         urljoin rt "http://x/list/" "abc@d/" = "http://x/list/abc@d/" →
         permalink rt self mlist msg s = (Ok (Some "http://x/list/abc@d/"), s')).
Proof.
  split; [| split; [| split; [| split; [| split; [| split; [| split]]]]]].
  - intros u s' H Hu. rewrite (permalink_run _ _ _ _ _ _ _ H).
    unfold str_truthy. apply String.eqb_neq in Hu. now rewrite Hu.
  - intros url s' H [-> | ->]; now rewrite (permalink_run _ _ _ _ _ _ _ H).
  - destruct (list_url_ok rt self mlist s) as [url H]. eauto.
  - intros body. unfold trim_msg_id.
    change ("<" +:+ body +:+ ">") with (String "<" (body +:+ ">")).
    rewrite startswith_head. cbn [slice_from_1].
    rewrite endswith_app. apply slice_to_last_app.
  - intros body Hend. unfold trim_msg_id.
    change ("<" +:+ body) with (String "<" body).
    rewrite startswith_head. cbn [slice_from_1]. now rewrite Hend.
  - intros body Hstart. unfold trim_msg_id. rewrite Hstart, endswith_app.
    apply slice_to_last_app.
  - intros id Hstart Hend. unfold trim_msg_id. now rewrite Hstart, Hend.
  - intros s' H Hid Hjoin. rewrite (permalink_run _ _ _ _ _ _ _ H), Hid.
    cbv [str_truthy String.eqb negb]. rewrite <- Hjoin. reflexivity.
Qed.

Lemma permalink_trims_and_joins_witness :
  fst (permalink (Demo.runtime true 0 0) (Demo.settings "yes" "")
                 Demo.test_list Demo.test_msg Demo.fresh)
  = Ok (Some "http://x/list/abc@d/").
Proof.
  pose proof (permalink_trims_and_joins
                (Demo.runtime true 0 0) (Demo.settings "yes" "")
                Demo.test_list Demo.test_msg Demo.fresh)
    as (_ & _ & _ & _ & _ & _ & _ & Hex).
  rewrite (Hex (snd (list_url (Demo.runtime true 0 0) (Demo.settings "yes" "")
                              Demo.test_list Demo.fresh))).
  - reflexivity.
  - vm_compute. reflexivity.
  - reflexivity.
  - reflexivity.
Defined.

(** C7.  Take a call of [_ensure_list_created] that reaches
    [public-inbox-init]: auto-creation is on, the lookup (run after the
    first log record) finds no record, and the list is public and
    advertised.  If the init command exits non-zero, the call returns
    [False], the cache is the one the lookup left (the very cache the call
    started with, when that was filled) and no command runs after the init
    command: there is no reload.  If it exits zero, the call
    returns [True] out of [_reload_public_inbox]: the cache is empty and the
    reload command, if one is configured, ran right after the init
    command. *)
Theorem ensure_list_created_reloads_only_on_success
    (rt : Runtime) (self : Settings) (mlist : MailingList) (s : State)
    (c : gmap string string) (s1 : State) :
  str_truthy (auto_create self) = true →
  _get_publicinbox_conf rt self mlist (emit (log_attempt mlist) s) = (Ok c, s1) →
  conf_truthy c = false →
  archive_policy mlist = public →
  advertised mlist = true →
  let cmd := init_command rt self mlist in
  let proc := subprocess_run rt (trace (at_init s1)) cmd in
  ∃ s',
    _ensure_list_created rt self mlist s = (Ok (returncode proc =? 0)%Z, s') ∧
    (returncode proc ≠ 0%Z →
       pi_config s' = pi_config s1 ∧
       (truthy (pi_config s) = true → pi_config s' = pi_config s) ∧
       commands (trace s') = commands (trace s1) ++ [cmd]) ∧
    (returncode proc = 0%Z →
       (∃ s_mid, s' = snd (_reload_public_inbox rt self s_mid) ∧
                 pi_config s_mid = pi_config s1 ∧
                 commands (trace s_mid) = commands (trace s1) ++ [cmd]) ∧
       pi_config s' = empty ∧
       commands (trace s') = commands (trace s1) ++ cmd :: reload_commands rt self).
Proof.
  intros Hauto Hget Hc Hpol Hadv cmd proc.
  pose proof (ensure_init_run rt self mlist s c s1 Hauto Hget Hc Hpol Hadv) as Hrun.
  cbv zeta in Hrun. fold cmd in Hrun. fold proc in Hrun.
  destruct (Z.eqb_spec (returncode proc) 0) as [Hz | Hnz].
  - eexists. split; [exact Hrun |]. split; [intros H; contradiction |].
    intros _.
    set (s_mid := emit (Log INFO "Initialised public-inbox archive for list %s"
                            [AStr (list_name mlist)])
                       (emit (Run cmd proc) (at_init s1))).
    assert (Hmid : commands (trace s_mid) = commands (trace s1) ++ [cmd]).
    { unfold s_mid, at_init. now rewrite commands_log, commands_run, !commands_log. }
    destruct (reload_run rt self s_mid) as (s' & Hre & Hcache & Hcmds).
    rewrite Hre. cbn [snd]. split; [| split].
    + exists s_mid. rewrite Hre. auto.
    + exact Hcache.
    + rewrite Hcmds, Hmid, <- app_assoc. reflexivity.
  - eexists. split; [exact Hrun |]. split; [| intros H; contradiction].
    intros _. split; [reflexivity | split].
    + intros Hfilled. unfold at_init. cbn [emit pi_config].
      rewrite get_conf_run in Hget. injection Hget as _ <-.
      rewrite parse_config_cache. cbn [emit pi_config]. now rewrite Hfilled.
    + unfold at_init. now rewrite commands_log, commands_run, !commands_log.
Qed.

Lemma ensure_list_created_reloads_only_on_success_witness :
  fst (_ensure_list_created (Demo.runtime false 1 0)
         (Demo.settings "yes" "reload now") Demo.test_list Demo.fresh)
  = Ok false ∧
  fst (_ensure_list_created (Demo.runtime false 0 0)
         (Demo.settings "yes" "reload now") Demo.test_list Demo.fresh)
  = Ok true.
Proof.
  split.
  - destruct (ensure_list_created_reloads_only_on_success
                (Demo.runtime false 1 0) (Demo.settings "yes" "reload now")
                Demo.test_list Demo.fresh
                ∅
                (snd (_get_publicinbox_conf (Demo.runtime false 1 0)
                        (Demo.settings "yes" "reload now") Demo.test_list
                        (emit (log_attempt Demo.test_list) Demo.fresh))))
      as (s' & -> & _);
      [reflexivity | vm_compute; reflexivity | reflexivity | reflexivity
      | reflexivity | vm_compute; reflexivity].
  - destruct (ensure_list_created_reloads_only_on_success
                (Demo.runtime false 0 0) (Demo.settings "yes" "reload now")
                Demo.test_list Demo.fresh
                ∅
                (snd (_get_publicinbox_conf (Demo.runtime false 0 0)
                        (Demo.settings "yes" "reload now") Demo.test_list
                        (emit (log_attempt Demo.test_list) Demo.fresh))))
      as (s' & -> & _);
      [reflexivity | vm_compute; reflexivity | reflexivity | reflexivity
      | reflexivity | vm_compute; reflexivity].
Defined.

(** C8, as claimed, fails: an attempt whose init command exits non-zero
    returns with the cache filled.  Here the configuration holds a record of
    another list only, [public-inbox-init] exits with 1, and after the call
    the cache still holds that record. *)
Lemma failed_init_leaves_cache_filled :
  let r := _ensure_list_created (Demo.runtime false 1 0) (Demo.settings "yes" "")
             Demo.test_list Demo.fresh in
  fst r = Ok false ∧
  commands (trace (snd r))
  = [git_list_command (Demo.runtime false 1 0) (Demo.settings "yes" "");
     init_command (Demo.runtime false 1 0) (Demo.settings "yes" "")
       Demo.test_list] ∧
  keys (pi_config (snd r)) = ["other"] ∧
  truthy (pi_config (snd r)) = true.
Proof.
  vm_compute. repeat split; reflexivity.
Qed.

(** C8, amended.  The cache is empty after every reload, with or without
    a configured reload command, hence after every creation attempt whose
    init command exits zero and after [list_deleting_handler] has removed a
    section.  After an attempt whose init command exits non-zero the cache
    is the one the record lookup of that attempt left. *)
Theorem cache_cleared_by_reload_and_successful_init
    (rt : Runtime) (self : Settings) :
  (∀ s, ∃ s', _reload_public_inbox rt self s = (Ok tt, s') ∧
              pi_config s' = empty) ∧
  (∀ mlist s c s1,
     str_truthy (auto_create self) = true →
     _get_publicinbox_conf rt self mlist (emit (log_attempt mlist) s) = (Ok c, s1) →
     conf_truthy c = false →
     archive_policy mlist = public →
     advertised mlist = true →
     let proc := subprocess_run rt (trace (at_init s1)) (init_command rt self mlist) in
     pi_config (snd (_ensure_list_created rt self mlist s))
     = if (returncode proc =? 0)%Z then empty else pi_config s1) ∧
  (∀ mlist s c s1,
     is_enabled self = true →
     str_truthy (auto_create self) = true →
     _get_publicinbox_conf rt self mlist s = (Ok c, s1) →
     conf_truthy c = true →
     pi_config (snd (list_deleting_handler rt self mlist s)) = empty).
Proof.
  split; [| split].
  - intros s. destruct (reload_run rt self s) as (s' & H & Hc & _). eauto.
  - intros mlist s c s1 Hauto Hget Hc Hpol Hadv proc.
    rewrite (ensure_init_run rt self mlist s c s1 Hauto Hget Hc Hpol Hadv).
    fold proc. destruct (returncode proc =? 0)%Z; cbn [snd].
    + match goal with
      | |- context [_reload_public_inbox _ self ?s0] =>
          destruct (reload_run rt self s0) as (s' & -> & Hcache & _)
      end. exact Hcache.
    + reflexivity.
  - intros mlist s c s1 Hen Hauto Hget Hc.
    unfold list_deleting_handler. rewrite Hen, Hauto. cbn [negb orb].
    unfold bind at 1. rewrite Hget, Hc. cbn [negb].
    unfold bind at 1. rewrite run_command_returns. cbv beta iota zeta.
    match goal with
    | |- context [negb ?b] => destruct (negb b)
    end; unfold bind at 1; unfold log at 1;
      match goal with
      | |- context [_reload_public_inbox _ self ?s0] =>
          destruct (reload_run rt self s0) as (s' & -> & Hcache & _)
      end; exact Hcache.
Qed.

Lemma cache_cleared_by_reload_and_successful_init_witness :
  pi_config (snd (_ensure_list_created (Demo.runtime false 0 0)
                    (Demo.settings "yes" "") Demo.test_list Demo.fresh))
  = empty ∧
  keys (pi_config (snd (_ensure_list_created (Demo.runtime false 1 0)
                          (Demo.settings "yes" "") Demo.test_list Demo.fresh)))
  = ["other"].
Proof.
  split.
  - rewrite (proj1 (proj2 (cache_cleared_by_reload_and_successful_init
                             (Demo.runtime false 0 0) (Demo.settings "yes" "")))
               Demo.test_list Demo.fresh ∅
               (snd (_get_publicinbox_conf (Demo.runtime false 0 0)
                       (Demo.settings "yes" "") Demo.test_list
                       (emit (log_attempt Demo.test_list) Demo.fresh))));
      [reflexivity | reflexivity | vm_compute; reflexivity | reflexivity
      | reflexivity | reflexivity].
  - rewrite (proj1 (proj2 (cache_cleared_by_reload_and_successful_init
                             (Demo.runtime false 1 0) (Demo.settings "yes" "")))
               Demo.test_list Demo.fresh ∅
               (snd (_get_publicinbox_conf (Demo.runtime false 1 0)
                       (Demo.settings "yes" "") Demo.test_list
                       (emit (log_attempt Demo.test_list) Demo.fresh))));
      [vm_compute; reflexivity | reflexivity | vm_compute; reflexivity
      | reflexivity | reflexivity | reflexivity].
Defined.




(** C10.  With the auto-create setting falsy, [archive_message] returns
    [None] and leaves the state as it found it: no command runs, so the
    delivery agent is not invoked, whatever the configuration holds for the
    list. *)
Theorem archive_message_needs_auto_create
    (rt : Runtime) (self : Settings) (mlist : MailingList) (msg : Message)
    (s : State) :
  str_truthy (auto_create self) = false →
  archive_message rt self mlist msg s = (Ok None, s).
Proof.
  intros Hauto. unfold archive_message, _ensure_list_created.
  rewrite Hauto. reflexivity.
Qed.

Lemma archive_message_needs_auto_create_witness :
  fst (list_url (Demo.runtime true 0 0) (Demo.settings "" "")
                Demo.test_list Demo.fresh) = Ok (Some "http://x/list/") ∧
  archive_message (Demo.runtime true 0 0) (Demo.settings "" "")
                  Demo.test_list Demo.test_msg Demo.fresh
  = (Ok None, Demo.fresh).
Proof.
  split.
  - vm_compute. reflexivity.
  - apply (archive_message_needs_auto_create
             (Demo.runtime true 0 0) (Demo.settings "" "")
             Demo.test_list Demo.test_msg Demo.fresh).
    reflexivity.
Defined.

End Archiver.

(** ** The environment of the subprocesses *)

Module EnvironmentFacts.
Import Py OrderedDict RunFacts EffectFacts.

Lemma command_env_lookup (rt : Runtime) (self : Settings)
    (kw : option (gmap string string)) (k : string) :
  command_env rt self kw !! k =
  if decide (k = "PATH") then Some (public_inbox_path self)
  else if decide (k = "HOME") then Some (public_inbox_home self)
  else if decide (k = "PI_CONFIG") then Some (public_inbox_config self)
  else match os_environ rt !! k with
       | Some v => Some v
       | None => kw ≫= (fun m : gmap string string => m !! k)
       end.
Proof.
  unfold command_env. cbn [host_of Host.environ].
  set (e := <["PATH" := _]> (<["HOME" := _]> (<["PI_CONFIG" := _]> (os_environ rt)))).
  assert (He : e !! k =
               if decide (k = "PATH") then Some (public_inbox_path self)
               else if decide (k = "HOME") then Some (public_inbox_home self)
               else if decide (k = "PI_CONFIG") then Some (public_inbox_config self)
               else os_environ rt !! k).
  { subst e. repeat case_decide; subst; simplify_map_eq; reflexivity. }
  destruct kw as [m |]; simpl.
  - rewrite lookup_union, He.
    repeat case_decide;
      destruct (os_environ rt !! k), (m !! k); reflexivity.
  - rewrite He. repeat case_decide;
      destruct (os_environ rt !! k); reflexivity.
Qed.

Lemma command_env_plugin (rt : Runtime) (self : Settings)
    (kw : option (gmap string string)) (argv : list string)
    (stdin : option string) (t : bool) :
  plugin_env self {| args := argv; input := stdin; env := command_env rt self kw;
                     text := t |}.
Proof.
  unfold plugin_env. cbn [env]. rewrite !command_env_lookup.
  repeat split; reflexivity.
Qed.

(** *** Properties kept by every method, given that the four primitive
    steps keep them *)

Lemma preserves_ret {A : Type} (P : State → Prop) (a : A) : preserves P (ret a).
Proof. intros s H. exact H. Qed.

Lemma preserves_bind {A B : Type} (P : State → Prop) (m : M A) (k : A → M B) :
  preserves P m → (∀ a, preserves P (k a)) → preserves P (bind m k).
Proof.
  intros Hm Hk s H. unfold bind. specialize (Hm s H).
  destruct (m s) as [[a | e] s']; [apply Hk |]; exact Hm.
Qed.

Lemma preserves_get (P : State → Prop) : preserves P get_pi_config.
Proof. intros s H. exact H. Qed.

Lemma preserves_lift {A : Type} (P : State → Prop) (r : Result A) :
  preserves P (lift r).
Proof. intros s H. exact H. Qed.

Section Kept.
Context (rt : Host.t) (self : Settings) (P : State → Prop).
Hypothesis Hlog : ∀ l fmt a, preserves P (log l fmt a).
Hypothesis Hrun : ∀ argv t kw, preserves P (_run_command rt self argv t None kw).
Hypothesis Hclear : preserves P (put_pi_config empty).
Hypothesis Hloop : ∀ cfgs, preserves P (parse_loop cfgs).
Hypothesis Hfed : ∀ argv t stdin kw,
  preserves P (_run_command rt self argv t (Some stdin) kw).

Ltac kept :=
  repeat first
    [ apply preserves_ret | apply preserves_get | apply preserves_lift
    | apply Hlog | apply Hrun | apply Hfed | apply Hclear | apply Hloop
    | progress cbv zeta
    | apply preserves_bind; [| intros ?]
    | match goal with
      | |- preserves _ (if ?b then _ else _) => destruct b
      | |- preserves _ (match ?o with Some _ => _ | None => _ end) => destruct o
      end ].

Lemma parse_config_keeps : preserves P (_parse_publicinbox_config rt self).
Proof. unfold _parse_publicinbox_config. kept. Qed.

Lemma get_conf_keeps (mlist : MailingList) :
  preserves P (_get_publicinbox_conf rt self mlist).
Proof. unfold _get_publicinbox_conf. kept. Qed.

Lemma list_url_keeps (mlist : MailingList) : preserves P (list_url rt self mlist).
Proof. unfold list_url. kept. Qed.

Lemma permalink_keeps (mlist : MailingList) (msg : Message) :
  preserves P (permalink rt self mlist msg).
Proof. unfold permalink. kept. Qed.

Lemma reload_keeps : preserves P (_reload_public_inbox rt self).
Proof. unfold _reload_public_inbox. kept. Qed.

Lemma ensure_keeps (mlist : MailingList) :
  preserves P (_ensure_list_created rt self mlist).
Proof.
  unfold _ensure_list_created. kept.
Qed.

Lemma archive_message_keeps (mlist : MailingList) (msg : Message) :
  preserves P (archive_message rt self mlist msg).
Proof.
  unfold archive_message. kept. apply ensure_keeps.
Qed.

Lemma list_deleting_handler_keeps (mlist : MailingList) :
  preserves P (list_deleting_handler rt self mlist).
Proof.
  unfold list_deleting_handler. kept.
Qed.

End Kept.

Section PluginEnv.
Context (rt : Runtime) (self : Settings).

Lemma env_kept_log l fmt a : preserves (env_kept self) (log l fmt a).
Proof.
  intros s H. unfold env_kept, log in *. cbn [snd]. now rewrite commands_log.
Qed.

Lemma env_kept_run argv t stdin kw :
  preserves (env_kept self) (_run_command rt self argv t stdin kw).
Proof.
  intros s H. unfold env_kept, _run_command in *.
  cbn [host_of Host.popen snd].
  rewrite commands_run. apply Forall_app. split; [exact H |].
  constructor; [apply command_env_plugin | constructor].
Qed.

Lemma env_kept_clear : preserves (env_kept self) (put_pi_config empty).
Proof. intros s H. exact H. Qed.

Lemma env_kept_loop cfgs : preserves (env_kept self) (parse_loop cfgs).
Proof.
  intros s H. unfold parse_loop.
  destruct (parse_entries cfgs (pi_config s)) as [r d]. exact H.
Qed.

End PluginEnv.

End EnvironmentFacts.

Module Environment.
Import Py OrderedDict EnvironmentFacts.

(** X1.  In the environment [_run_command] builds, [PI_CONFIG], [HOME] and
    [PATH] are the plugin's settings whatever the inherited environment and
    the caller's [env] keyword say; every other variable has its inherited
    value, and the caller's value only where nothing is inherited.  So the
    delivery agent is told the posting address as [ORIGINAL_RECIPIENT] only
    when the inherited environment does not define that variable. *)
Theorem subprocess_environment_precedence (rt : Runtime) (self : Settings) :
  (∀ (kw : option (gmap string string)) (k : string),
     command_env rt self kw !! k =
     if decide (k = "PATH") then Some (public_inbox_path self)
     else if decide (k = "HOME") then Some (public_inbox_home self)
     else if decide (k = "PI_CONFIG") then Some (public_inbox_config self)
     else match os_environ rt !! k with
          | Some v => Some v
          | None => kw ≫= (fun m : gmap string string => m !! k)
          end) ∧
  (∀ mlist msg,
     env (mda_command rt self mlist msg) !! "ORIGINAL_RECIPIENT" =
     match os_environ rt !! "ORIGINAL_RECIPIENT" with
     | Some inherited => Some inherited
     | None => Some (posting_address mlist)
     end).
Proof.
  split; [apply command_env_lookup |].
  intros mlist msg. unfold mda_command. cbn [env].
  rewrite command_env_lookup.
  rewrite !decide_False by discriminate.
  destruct (os_environ rt !! "ORIGINAL_RECIPIENT"); [reflexivity |].
  cbn [mbind option_bind]. apply lookup_singleton_eq.
Qed.

(** X2.  Every subprocess the plugin starts sees the plugin's [PI_CONFIG],
    [HOME] and [PATH]: if that holds of the commands run so far, it holds of
    the commands run after [archive_message], [list_deleting_handler],
    [permalink] or [list_url]. *)
Theorem every_subprocess_sees_plugin_env
    (rt : Runtime) (self : Settings) (mlist : MailingList) (msg : Message)
    (s : State) :
  Forall (plugin_env self) (commands (trace s)) →
  Forall (plugin_env self)
         (commands (trace (snd (archive_message rt self mlist msg s)))) ∧
  Forall (plugin_env self)
         (commands (trace (snd (list_deleting_handler rt self mlist s)))) ∧
  Forall (plugin_env self)
         (commands (trace (snd (permalink rt self mlist msg s)))) ∧
  Forall (plugin_env self)
         (commands (trace (snd (list_url rt self mlist s)))).
Proof.
  intros H.
  change (env_kept self s) in H.
  pose proof (env_kept_log self) as Hlog.
  pose proof (fun argv t => env_kept_run rt self argv t None) as Hrun.
  pose proof (fun argv t i => env_kept_run rt self argv t (Some i)) as Hfed.
  pose proof (env_kept_clear self) as Hclear.
  pose proof (env_kept_loop self) as Hloop.
  repeat split.
  - exact (archive_message_keeps rt self _ Hlog Hrun Hclear Hloop Hfed mlist msg s H).
  - exact (list_deleting_handler_keeps rt self _ Hlog Hrun Hclear Hloop mlist s H).
  - exact (permalink_keeps rt self _ Hlog Hrun Hloop mlist msg s H).
  - exact (list_url_keeps rt self _ Hlog Hrun Hloop mlist s H).
Qed.

Lemma every_subprocess_sees_plugin_env_witness :
  Forall (plugin_env (Demo.settings "yes" "reload now"))
         (commands (trace (snd (archive_message (Demo.runtime false 0 0)
                                  (Demo.settings "yes" "reload now")
                                  Demo.test_list Demo.test_msg Demo.fresh)))).
Proof.
  apply (every_subprocess_sees_plugin_env
           (Demo.runtime false 0 0) (Demo.settings "yes" "reload now")
           Demo.test_list Demo.test_msg Demo.fresh).
  constructor.
Defined.

End Environment.

(** ** The cache as a dictionary *)

Module CacheFacts.
Import Py OrderedDict OrderedDictFacts PyFacts ParserFacts RunFacts EffectFacts
  EnvironmentFacts.

Section Dict.
Context {V : Type}.
Implicit Types (d : t V) (k : string) (v : V).

Lemma mem_keys d k : mem k d = existsb (String.eqb k) (keys d).
Proof.
  unfold mem, keys. induction d as [| [k' v'] d IH]; [reflexivity |].
  cbn [get map fst existsb]. rewrite (String.eqb_sym k k').
  destruct (String.eqb k' k); [reflexivity | exact IH].
Qed.

Lemma set_set d k v v' : set k v (set k v' d) = set k v d.
Proof.
  induction d as [| [k0 v0] d IH]; cbn [set].
  - now rewrite String.eqb_refl.
  - destruct (String.eqb k0 k) eqn:E; cbn [set].
    + now rewrite String.eqb_refl.
    + now rewrite E, IH.
Qed.

Lemma values_set (P : V → Prop) d k v :
  Forall P (values d) → P v → Forall P (values (set k v d)).
Proof.
  unfold values. intros Hd Hv.
  induction d as [| [k0 v0] d IH]; cbn [set map snd].
  - repeat constructor. exact Hv.
  - cbn [map snd] in Hd. apply Forall_cons in Hd as [H0 Hd].
    destruct (String.eqb k0 k); cbn [map snd]; constructor; auto.
Qed.

End Dict.

Lemma existsb_eqb_In (n : string) (l : list string) :
  existsb (String.eqb n) l = true ↔ In n l.
Proof.
  rewrite existsb_exists. split.
  - intros (x & Hx & E). apply String.eqb_eq in E. now subst.
  - intros H. exists n. split; [exact H | apply String.eqb_refl].
Qed.

Lemma add_name_NoDup (l : list string) (n : string) :
  NoDup l → NoDup (add_name l n).
Proof.
  intros H. unfold add_name.
  destruct (existsb (String.eqb n) l) eqn:E; [exact H |].
  apply NoDup_app. split; [exact H |]. split.
  - intros x Hx Hn. apply list_elem_of_singleton in Hn. subst x.
    apply list_elem_of_In, existsb_eqb_In in Hx. congruence.
  - apply NoDup_singleton.
Qed.

(** What [store] does to the names and to the shape of the cache. *)
Lemma store_shape (n f v : string) (d : t (gmap string string)) :
  ∃ d', store n f v d = Ok d' ∧
        keys d' = add_name (keys d) n ∧
        (cache_ok d → cache_ok d').
Proof.
  unfold store, add_name. rewrite <- mem_keys.
  destruct (mem n d) eqn:Em; unfold mem in Em.
  - destruct (get n d) as [c |] eqn:E; [| discriminate].
    eexists. split; [reflexivity |].
    assert (Hk : keys (set n (<[f:=v]> c) d) = keys d).
    { rewrite keys_set. unfold mem. now rewrite E. }
    split; [exact Hk |]. intros [Hnd Hne]. split; [now rewrite Hk |].
    apply values_set; [exact Hne | apply insert_non_empty].
  - destruct (get n d) as [c |] eqn:E; [discriminate |].
    rewrite get_set_eq, set_set. eexists. split; [reflexivity |].
    assert (Hk : keys (set n (<[f:=v]> ∅) d) = keys d ++ [n]).
    { rewrite keys_set. unfold mem. now rewrite E. }
    split; [exact Hk |]. intros [Hnd Hne]. split.
    + rewrite Hk. apply NoDup_app. split; [exact Hnd |]. split.
      * intros x Hx Hn. apply list_elem_of_singleton in Hn. subst x.
        apply list_elem_of_In, existsb_eqb_In in Hx.
        rewrite <- mem_keys in Hx. unfold mem in Hx. now rewrite E in Hx.
      * apply NoDup_singleton.
    + apply values_set; [exact Hne | apply insert_non_empty].
Qed.

Lemma written_names_cons (cfg : bytes) (cfgs : list bytes) :
  written_names (cfg :: cfgs) =
  match decoded cfg ≫= spec_retained with
  | Some (n, _, _) => n :: written_names cfgs
  | None => written_names cfgs
  end.
Proof.
  unfold written_names. cbn [omap list_omap]. fold (omap decoded cfgs).
  destruct (decoded cfg) as [e |]; cbn [mbind option_bind]; [| reflexivity].
  cbn [omap list_omap]. fold (omap spec_retained (omap decoded cfgs)).
  destruct (spec_retained e) as [[[n f] v] |]; reflexivity.
Qed.

(** The loop appends a name when it is first written and keeps the shape. *)
Lemma parse_entries_shape (cfgs : list bytes) (d : t (gmap string string)) :
  keys (snd (parse_entries cfgs d)) = fold_left add_name (written_names cfgs) (keys d) ∧
  (cache_ok d → cache_ok (snd (parse_entries cfgs d))).
Proof.
  revert d. induction cfgs as [| cfg cfgs IH]; intros d; [split; auto |].
  cbn [parse_entries]. rewrite parse_entry_spec, written_names_cons.
  destruct (decoded cfg ≫= spec_retained) as [[[n f] v] |]; [| apply IH].
  destruct (store_shape n f v d) as (d' & -> & Hk & Hok).
  destruct (IH d') as [IHk IHok]. cbn [fold_left]. rewrite <- Hk.
  split; [exact IHk | auto].
Qed.

Lemma cache_ok_empty : cache_ok (@empty (gmap string string)).
Proof. split; constructor. Qed.

Lemma cache_kept_log l fmt a : preserves cache_kept (log l fmt a).
Proof. intros s H. exact H. Qed.

Lemma cache_kept_run h self argv t stdin kw :
  preserves cache_kept (_run_command h self argv t stdin kw).
Proof.
  intros s H. unfold _run_command.
  destruct (Host.popen h (trace s) _); exact H.
Qed.

Lemma cache_kept_clear : preserves cache_kept (put_pi_config empty).
Proof. intros s H. apply cache_ok_empty. Qed.

Lemma cache_kept_loop cfgs : preserves cache_kept (parse_loop cfgs).
Proof.
  intros s H. unfold parse_loop, cache_kept in *.
  pose proof (proj2 (parse_entries_shape cfgs (pi_config s)) H) as H'.
  destruct (parse_entries cfgs (pi_config s)) as [r d]. exact H'.
Qed.

Lemma fold_add_name_nil (names : list string) (seen : list string) :
  fold_left add_name names seen = [] ↔ names = [] ∧ seen = [].
Proof.
  revert seen. induction names as [| n names IH]; intros seen; cbn [fold_left].
  - tauto.
  - rewrite IH. unfold add_name.
    destruct (existsb (String.eqb n) seen) eqn:E.
    + split; [intros [_ ->]; discriminate | intros [[=] _]].
    + split; [intros [_ H]; now destruct seen | intros [[=] _]].
Qed.

(** The commands a call of [_parse_publicinbox_config] adds. *)
Lemma parse_config_commands (rt : Runtime) (self : Settings) (s : State) :
  commands (trace (snd (_parse_publicinbox_config rt self s)))
  = commands (trace s) ++ lookup_commands rt self s.
Proof.
  rewrite parse_config_trace, commands_app. unfold lookup_commands.
  destruct (truthy (pi_config s)); [reflexivity |].
  destruct (returncode _ =? 0)%Z; reflexivity.
Qed.

Lemma parse_config_hit (h : Host.t) (self : Settings) (s : State) :
  truthy (pi_config s) = true →
  _parse_publicinbox_config h self s = (Ok tt, s).
Proof.
  intros H. unfold _parse_publicinbox_config, bind, get_pi_config, ret.
  now rewrite H.
Qed.

End CacheFacts.

Module Cache.
Import Py OrderedDict OrderedDictFacts ParserFacts RunFacts EffectFacts
  EnvironmentFacts CacheFacts.

(** X3.  The records of the cache stand in the order in which their names
    are first written by a retained record of the input; later writes to a
    name, to whatever field, leave its place alone. *)
Theorem cache_order_is_first_write_order (cfgs : list bytes) :
  keys (parsed cfgs) = first_seen (written_names cfgs) ∧
  (∀ d, keys (snd (parse_entries cfgs d))
        = fold_left add_name (written_names cfgs) (keys d)).
Proof.
  split.
  - apply (parse_entries_shape cfgs empty).
  - intros d. apply (parse_entries_shape cfgs d).
Qed.

(** X4.  The cache is a dictionary at all times: if no name occurs twice
    in it and every record has a field, the same holds after the loop and
    after each of [archive_message], [list_deleting_handler], [permalink]
    and [list_url]; a cache built from nothing has that shape. *)
Theorem cache_stays_a_dictionary
    (rt : Runtime) (self : Settings) (mlist : MailingList) (msg : Message)
    (s : State) :
  cache_ok (pi_config s) →
  (∀ cfgs, cache_ok (snd (parse_entries cfgs (pi_config s)))) ∧
  cache_ok (pi_config (snd (archive_message rt self mlist msg s))) ∧
  cache_ok (pi_config (snd (list_deleting_handler rt self mlist s))) ∧
  cache_ok (pi_config (snd (permalink rt self mlist msg s))) ∧
  cache_ok (pi_config (snd (list_url rt self mlist s))).
Proof.
  intros H.
  pose proof cache_kept_log as Hlog.
  pose proof (fun argv t => cache_kept_run rt self argv t None) as Hrun.
  pose proof (fun argv t i => cache_kept_run rt self argv t (Some i)) as Hfed.
  pose proof cache_kept_clear as Hclear.
  pose proof cache_kept_loop as Hloop.
  split; [intros cfgs; now apply parse_entries_shape |].
  split; [| split; [| split]].
  - exact (archive_message_keeps rt self _ Hlog Hrun Hclear Hloop Hfed mlist msg s H).
  - exact (list_deleting_handler_keeps rt self _ Hlog Hrun Hclear Hloop mlist s H).
  - exact (permalink_keeps rt self _ Hlog Hrun Hloop mlist msg s H).
  - exact (list_url_keeps rt self _ Hlog Hrun Hloop mlist s H).
Qed.

Lemma cache_stays_a_dictionary_witness :
  cache_ok (pi_config (snd (archive_message (Demo.runtime false 0 0)
                              (Demo.settings "yes" "") Demo.test_list
                              Demo.test_msg Demo.fresh))).
Proof.
  apply (cache_stays_a_dictionary
           (Demo.runtime false 0 0) (Demo.settings "yes" "")
           Demo.test_list Demo.test_msg Demo.fresh).
  split; constructor.
Defined.

(** X5.  Only a non-empty result is cached.  On an empty cache
    [_parse_publicinbox_config] runs [git config] once and builds the cache
    from its output, whatever it exits with; if the output writes to no
    record, the cache stays empty and the next call runs [git config]
    again; if it writes to one, the cache is filled and the next call runs
    nothing and changes nothing. *)
Theorem only_a_non_empty_result_is_cached
    (rt : Runtime) (self : Settings) (s : State) :
  truthy (pi_config s) = false →
  let git := git_list_command rt self in
  let out := stdout (subprocess_run rt (trace s) git) in
  let s1 := snd (_parse_publicinbox_config rt self s) in
  commands (trace s1) = commands (trace s) ++ [git] ∧
  pi_config s1 = parsed (bytes_split NUL out) ∧
  (written_names (bytes_split NUL out) = [] →
     pi_config s1 = empty ∧
     commands (trace (snd (_parse_publicinbox_config rt self s1)))
     = commands (trace s) ++ [git; git]) ∧
  (written_names (bytes_split NUL out) ≠ [] →
     truthy (pi_config s1) = true ∧
     _parse_publicinbox_config rt self s1 = (Ok tt, s1)).
Proof.
  intros Hempty git out s1.
  assert (Hcmd : commands (trace s1) = commands (trace s) ++ [git]).
  { subst s1. rewrite parse_config_commands. unfold lookup_commands.
    now rewrite Hempty. }
  assert (Hcache : pi_config s1 = parsed (bytes_split NUL out)).
  { subst s1. rewrite parse_config_cache. now rewrite Hempty. }
  assert (Hkeys : keys (pi_config s1) = first_seen (written_names (bytes_split NUL out))).
  { rewrite Hcache. apply (parse_entries_shape _ empty). }
  split; [exact Hcmd |]. split; [exact Hcache |]. split.
  - intros Hnone. rewrite Hnone in Hkeys. cbn in Hkeys.
    assert (H1 : pi_config s1 = empty) by (now destruct (pi_config s1)).
    split; [exact H1 |].
    rewrite parse_config_commands, Hcmd. unfold lookup_commands.
    rewrite H1. cbn [truthy empty]. now rewrite <- app_assoc.
  - intros Hsome.
    assert (H1 : truthy (pi_config s1) = true).
    { destruct (pi_config s1) as [| x d] eqn:E; [| reflexivity].
      exfalso. apply Hsome. cbn in Hkeys. symmetry in Hkeys.
      unfold first_seen in Hkeys. now apply fold_add_name_nil in Hkeys. }
    split; [exact H1 | now apply parse_config_hit].
Qed.

Lemma only_a_non_empty_result_is_cached_witness :
  commands (trace (snd (_parse_publicinbox_config (Demo.runtime false 0 0)
                          (Demo.settings "yes" "") Demo.fresh)))
  = [] ++ [git_list_command (Demo.runtime false 0 0) (Demo.settings "yes" "")].
Proof.
  apply (only_a_non_empty_result_is_cached
           (Demo.runtime false 0 0) (Demo.settings "yes" "") Demo.fresh).
  reflexivity.
Defined.

End Cache.

(** ** Looking a list up, and reading what git prints *)

Module ReadFacts.
Import Py OrderedDict OrderedDictFacts PyFacts ParserFacts RunFacts EffectFacts
  LookupFacts CacheFacts.

Lemma matches_truthy (address listid : string) (c : gmap string string) :
  matches address listid c → conf_truthy c = true.
Proof.
  intros H. unfold conf_truthy. apply bool_decide_eq_true. intros ->.
  destruct H as [H | H]; rewrite lookup_empty in H; discriminate.
Qed.

Lemma conf_falsy (c : gmap string string) : conf_truthy c = false → c = ∅.
Proof.
  unfold conf_truthy. intros H. apply bool_decide_eq_false in H.
  destruct (decide (c = ∅)) as [E | E]; [exact E | contradiction].
Qed.

(** The record loop returns the empty dictionary when nothing matches and
    a matching record of the list otherwise. *)
Lemma find_conf_cases (confs : list (gmap string string)) (address listid : string) :
  ((∀ x, In x confs → ¬ matches address listid x) ∧
   find_conf confs address listid = ∅) ∨
  (In (find_conf confs address listid) confs ∧
   matches address listid (find_conf confs address listid)).
Proof.
  induction confs as [| c confs IH]; [left; split; [intros x [] | reflexivity] |].
  rewrite find_conf_cons. destruct (matchesb address listid c) eqn:E.
  - right. split; [now left | now apply matchesb_iff].
  - destruct IH as [[Hno Hr] | [Hin Hm]].
    + left. split; [| exact Hr]. intros x [<- | Hx]; [| now apply Hno].
      intros Hm. apply matchesb_iff in Hm. congruence.
    + right. split; [now right | exact Hm].
Qed.

Lemma list_url_run (rt : Runtime) (self : Settings) (mlist : MailingList)
    (s : State) :
  list_url rt self mlist s
  = (Ok (find_conf (values (pi_config (snd (_parse_publicinbox_config rt self s))))
                   (posting_address mlist) (list_id mlist) !! "url"),
     snd (_parse_publicinbox_config rt self s)).
Proof.
  unfold list_url, bind. rewrite get_conf_run.
  destruct (conf_truthy _) eqn:E; [reflexivity |].
  apply conf_falsy in E. rewrite E. reflexivity.
Qed.

Lemma bytes_split_cut (sep : byte) (a b : bytes) :
  ¬ In sep a → bytes_split sep (a ++ sep :: b) = a :: bytes_split sep b.
Proof.
  induction a as [| c a IH]; intros Hnot; cbn [app bytes_split].
  - now rewrite byte_eqb_refl.
  - destruct (Byte.eqb c sep) eqn:E.
    + apply Byte.byte_dec_bl in E. subst c. exfalso. apply Hnot. now left.
    + rewrite IH; [reflexivity |]. intros Hin. apply Hnot. now right.
Qed.

Lemma dumpable_spec (e : string * string) :
  dumpable e = true →
  occurs LF_char (fst e) = false ∧ occurs NUL_char (fst e) = false ∧
  occurs NUL_char (snd e) = false ∧ is_str (fst e) = true ∧ is_str (snd e) = true.
Proof.
  unfold dumpable. rewrite !andb_true_iff, !negb_true_iff. tauto.
Qed.

Lemma raw_record_no_NUL (e : string * string) :
  dumpable e = true → ¬ In NUL (raw_record (fst e) (snd e)).
Proof.
  intros H. apply dumpable_spec in H as (_ & Hk & Hv & _).
  unfold raw_record. intros Hin. apply in_app_or in Hin as [Hin | [Hin | Hin]].
  - revert Hin. now apply encode_no_sep.
  - discriminate.
  - revert Hin. now apply encode_no_sep.
Qed.

Lemma bytes_split_dump (es : list (string * string)) :
  forallb dumpable es = true →
  bytes_split NUL (git_dump es)
  = map (fun e => raw_record (fst e) (snd e)) es ++ [[]].
Proof.
  induction es as [| e es IH]; intros H; [reflexivity |].
  cbn [forallb] in H. apply andb_true_iff in H as [He Hes].
  unfold git_dump. cbn [map concat]. fold (git_dump es).
  rewrite <- app_assoc. cbn [app].
  rewrite bytes_split_cut by (now apply raw_record_no_NUL).
  now rewrite IH.
Qed.

Lemma decoded_dump (es : list (string * string)) :
  forallb dumpable es = true →
  omap decoded (bytes_split NUL (git_dump es)) = es.
Proof.
  intros H. rewrite bytes_split_dump by exact H. rewrite omap_app.
  change (omap decoded [[]]) with (@nil (string * string)). rewrite app_nil_r.
  induction es as [| [k v] es IH]; [reflexivity |].
  cbn [forallb] in H. apply andb_true_iff in H as [He Hes].
  apply dumpable_spec in He as (Hlf & _ & _ & Hk & Hv). cbn [fst snd] in *.
  cbn [map omap list_omap fst snd].
  rewrite (decoded_raw_record k v Hlf Hk Hv).
  f_equal. now apply IH.
Qed.

Lemma field_of_parsed (cfgs : list bytes) (name field : string) :
  field_of (parsed cfgs) name field = spec_parse (omap decoded cfgs) name field.
Proof.
  unfold parsed. rewrite field_of_parse_entries.
  now destruct (spec_parse (omap decoded cfgs) name field).
Qed.

End ReadFacts.

Module Read.
Import Py OrderedDict OrderedDictFacts PyFacts ParserFacts RunFacts EffectFacts
  LookupFacts CacheFacts ReadFacts.

(** X6.  [list_url] returns the [url] field of the first record that
    matches the list on [address] or [listid], read in the cache as
    [_parse_publicinbox_config] leaves it: [None] when no record matches,
    and [None] as well when the matching record has no [url] field, even if
    a later matching record has one. *)
Theorem list_url_is_url_of_first_match
    (rt : Runtime) (self : Settings) (mlist : MailingList) (s : State) :
  let s' := snd (_parse_publicinbox_config rt self s) in
  let confs := values (pi_config s') in
  list_url rt self mlist s
  = (Ok (find_conf confs (posting_address mlist) (list_id mlist) !! "url"), s') ∧
  ((∀ x, In x confs → ¬ matches (posting_address mlist) (list_id mlist) x) →
   list_url rt self mlist s = (Ok None, s')) ∧
  (∀ pre c post,
     confs = pre ++ c :: post →
     (∀ x, In x pre → ¬ matches (posting_address mlist) (list_id mlist) x) →
     matches (posting_address mlist) (list_id mlist) c →
     list_url rt self mlist s = (Ok (c !! "url"), s')).
Proof.
  intros s' confs. split; [apply list_url_run |]. split.
  - intros Hno. rewrite list_url_run. fold s'. fold confs.
    now rewrite find_conf_none.
  - intros pre c post Hc Hpre Hm. rewrite list_url_run. fold s'. fold confs.
    rewrite Hc, find_conf_skip, find_conf_cons by exact Hpre.
    apply matchesb_iff in Hm. now rewrite Hm.
Qed.

Lemma list_url_is_url_of_first_match_witness :
  list_url (Demo.runtime true 0 0) (Demo.settings "yes" "") Demo.test_list
           {| pi_config := [("a", {[ "listid" := "test.example.com" ]});
                            ("b", {[ "address" := "test@example.com";
                                     "url" := "http://x/b/" ]})];
              trace := [] |}
  = (Ok None,
     {| pi_config := [("a", {[ "listid" := "test.example.com" ]});
                      ("b", {[ "address" := "test@example.com";
                               "url" := "http://x/b/" ]})];
        trace := [] |}).
Proof.
  pose proof (list_url_is_url_of_first_match
                (Demo.runtime true 0 0) (Demo.settings "yes" "") Demo.test_list
                {| pi_config := [("a", {[ "listid" := "test.example.com" ]});
                                 ("b", {[ "address" := "test@example.com";
                                          "url" := "http://x/b/" ]})];
                   trace := [] |}) as (_ & _ & Hfirst).
  rewrite (Hfirst [] {[ "listid" := "test.example.com" ]}
                  [{[ "address" := "test@example.com"; "url" := "http://x/b/" ]}]).
  - reflexivity.
  - reflexivity.
  - intros x [].
  - right. reflexivity.
Defined.

(** X7.  With a filled cache the lookups are answered from the cache, on
    every host: [_get_publicinbox_conf], [list_url] and [permalink] run no
    subprocess and leave the state as it is; the record and the URL are
    those the record loop finds in the cache, and [permalink] is what the
    host's [urljoin] makes of that URL and the trimmed message identifier:
    its link when it returns one, its exception when it raises, and [None]
    without a call when the record has no URL or an empty one.  So two
    hosts give the same record and the same URL, and the same permalink
    where their [urljoin] agrees; a change of the configuration file is not
    seen before the cache is cleared. *)
Theorem filled_cache_answers_without_subprocess
    (h : Host.t) (self : Settings) (mlist : MailingList) (msg : Message)
    (s : State) :
  truthy (pi_config s) = true →
  let c := find_conf (values (pi_config s)) (posting_address mlist) (list_id mlist) in
  let ref := trim_msg_id (message_id msg) +:+ "/" in
  _get_publicinbox_conf h self mlist s = (Ok c, s) ∧
  list_url h self mlist s = (Ok (c !! "url"), s) ∧
  permalink h self mlist msg s
  = (match c !! "url" with
     | Some u => if str_truthy u
                 then rbind (Host.urljoin h u ref) (fun link => Ok (Some link))
                 else Ok None
     | None => Ok None
     end, s) ∧
  (∀ h' : Host.t,
     _get_publicinbox_conf h' self mlist s = _get_publicinbox_conf h self mlist s ∧
     list_url h' self mlist s = list_url h self mlist s ∧
     ((∀ u, Host.urljoin h' u ref = Host.urljoin h u ref) →
      permalink h' self mlist msg s = permalink h self mlist msg s)).
Proof.
  intros Hfull c ref.
  assert (Hget : ∀ r : Host.t, _get_publicinbox_conf r self mlist s = (Ok c, s)).
  { intros r. unfold _get_publicinbox_conf, bind.
    now rewrite (parse_config_hit r self s Hfull). }
  assert (Hurl : ∀ r : Host.t, list_url r self mlist s = (Ok (c !! "url"), s)).
  { intros r. unfold list_url, bind. rewrite Hget.
    destruct (conf_truthy c) eqn:E; [reflexivity |].
    apply conf_falsy in E. rewrite E. reflexivity. }
  assert (Hperm : ∀ r : Host.t,
            permalink r self mlist msg s
            = (match c !! "url" with
               | Some u => if str_truthy u
                           then rbind (Host.urljoin r u ref)
                                      (fun link => Ok (Some link))
                           else Ok None
               | None => Ok None
               end, s)).
  { intros r. unfold permalink, bind. rewrite Hurl.
    destruct (c !! "url") as [u |]; [| reflexivity].
    destruct (str_truthy u); [| reflexivity].
    unfold lift. fold ref. destruct (Host.urljoin r u ref); reflexivity. }
  split; [apply Hget |]. split; [apply Hurl |]. split; [apply Hperm |].
  intros h'. split; [now rewrite !Hget |]. split; [now rewrite !Hurl |].
  intros Hjoin. rewrite !Hperm.
  destruct (c !! "url") as [u |]; [| reflexivity]. now rewrite Hjoin.
Qed.

Lemma filled_cache_answers_without_subprocess_witness :
  list_url (Demo.runtime false 0 0) (Demo.settings "yes" "") Demo.test_list
           {| pi_config := [("test", Demo.by_address)]; trace := [] |}
  = (Ok None, {| pi_config := [("test", Demo.by_address)]; trace := [] |}) ∧
  permalink Demo.no_agent (Demo.settings "yes" "") Demo.test_list Demo.test_msg
            {| pi_config := [("test", {[ "address" := "test@example.com";
                                         "url" := "http://x/list/" ]})];
               trace := [] |}
  = (Ok (Some "http://x/list/abc@d/"),
     {| pi_config := [("test", {[ "address" := "test@example.com";
                                  "url" := "http://x/list/" ]})];
        trace := [] |}).
Proof.
  split.
  - apply (filled_cache_answers_without_subprocess
             (Demo.runtime false 0 0) (Demo.settings "yes" "") Demo.test_list
             Demo.test_msg
             {| pi_config := [("test", Demo.by_address)]; trace := [] |}).
    reflexivity.
  - destruct (filled_cache_answers_without_subprocess
                Demo.no_agent (Demo.settings "yes" "") Demo.test_list
                Demo.test_msg
                {| pi_config := [("test", {[ "address" := "test@example.com";
                                             "url" := "http://x/list/" ]})];
                   trace := [] |})
      as (_ & _ & -> & _); [reflexivity |].
    vm_compute. reflexivity.
Defined.

(** X8.  Reading back what [git config -z -l] prints.  For entries whose
    keys and values are strings without NUL and whose keys have no line
    feed, cutting the dump at the NULs and decoding the records gives the
    entries back, values with line feeds included; the cache built from the
    dump is the specification's merger of the entries, and so is the cache
    [_parse_publicinbox_config] builds when git prints that dump. *)
Theorem git_dump_round_trip (es : list (string * string)) :
  forallb dumpable es = true →
  omap decoded (bytes_split NUL (git_dump es)) = es ∧
  (∀ name field,
     field_of (parsed (bytes_split NUL (git_dump es))) name field
     = spec_parse es name field) ∧
  (∀ rt self s name field,
     truthy (pi_config s) = false →
     stdout (subprocess_run rt (trace s) (git_list_command rt self)) = git_dump es →
     field_of (pi_config (snd (_parse_publicinbox_config rt self s))) name field
     = spec_parse es name field).
Proof.
  intros H. pose proof (decoded_dump es H) as Hdec.
  split; [exact Hdec |]. split.
  - intros name field. now rewrite field_of_parsed, Hdec.
  - intros rt self s name field Hempty Hout.
    rewrite parse_config_cache, Hempty, Hout.
    now rewrite field_of_parsed, Hdec.
Qed.

Lemma git_dump_round_trip_witness :
  omap decoded
       (bytes_split NUL
          (git_dump [("publicinbox.l.url", "http://x/l/");
                     ("publicinbox.l.description",
                      "two" +:+ String LF_char "lines");
                     ("core.bare", "true")]))
  = [("publicinbox.l.url", "http://x/l/");
     ("publicinbox.l.description", "two" +:+ String LF_char "lines");
     ("core.bare", "true")].
Proof.
  apply (git_dump_round_trip
           [("publicinbox.l.url", "http://x/l/");
            ("publicinbox.l.description", "two" +:+ String LF_char "lines");
            ("core.bare", "true")]).
  reflexivity.
Defined.

End Read.

(** ** Creating, delivering, deleting *)

Module OperationFacts.
Import Py OrderedDict OrderedDictFacts ParserFacts RunFacts EffectFacts
  EnvironmentFacts CacheFacts ReadFacts.

Section Hosts.
Context (h : Host.t) (self : Settings).

(** [_parse_publicinbox_config] on any host: a filled cache ends the call,
    a [git config] that cannot be started ends it with the exception, and
    one that ran fills the cache from what it printed. *)
Lemma parse_config_cases (s : State) :
  _parse_publicinbox_config h self s
  = if truthy (pi_config s) then (Ok tt, s)
    else match Host.popen h (trace s) (git_list_command h self) with
         | Raise e => (Raise e, s)
         | Ok p =>
             (Ok tt,
              {| pi_config := parsed (bytes_split NUL (stdout p));
                 trace := trace s ++
                          Run (git_list_command h self) p ::
                          (if (returncode p =? 0)%Z then []
                           else [Log ERROR "Error (%s) when reading public-inbox config: %s"
                                     [AInt (returncode p); ABytes (stderr p)]]) |})
         end.
Proof.
  unfold _parse_publicinbox_config, bind, get_pi_config, ret, _run_command,
    log, parse_loop, parsed, empty.
  fold (git_list_command h self).
  destruct (pi_config s) as [| x d] eqn:E; cbn [truthy]; [| reflexivity].
  destruct (Host.popen h (trace s) (git_list_command h self)) as [p | e];
    [| reflexivity].
  destruct (returncode p =? 0)%Z; cbn [negb emit pi_config trace]; rewrite ?E;
    match goal with
    | |- context [parse_entries ?l ?d0] =>
        pose proof (parse_entries_total l d0) as Ht;
        destruct (parse_entries l d0) as [r d']
    end; cbn [fst] in Ht; subst r; unfold set_pi_config, emit;
    cbn [snd trace pi_config]; rewrite <- ?app_assoc; reflexivity.
Qed.

(** What a record lookup that returns has done. *)
Lemma get_conf_effect (mlist : MailingList) (s : State)
    (c : gmap string string) (s1 : State) :
  _get_publicinbox_conf h self mlist s = (Ok c, s1) →
  c = find_conf (values (pi_config s1)) (posting_address mlist) (list_id mlist) ∧
  commands (trace s1) = commands (trace s) ++ lookup_commands h self s ∧
  (truthy (pi_config s) = true → s1 = s).
Proof.
  unfold _get_publicinbox_conf, bind, get_pi_config, ret, lookup_commands.
  rewrite parse_config_cases.
  destruct (truthy (pi_config s)).
  - intros [= <- <-]. rewrite app_nil_r. auto.
  - destruct (Host.popen h (trace s) (git_list_command h self)) as [p | e];
      [| discriminate].
    intros [= <- <-]. cbn [pi_config trace]. split; [reflexivity |].
    split; [| discriminate].
    rewrite commands_app. f_equal.
    destruct (returncode p =? 0)%Z; reflexivity.
Qed.

Lemma get_conf_after_attempt (mlist : MailingList) (s : State)
    (c : gmap string string) (s1 : State) :
  _get_publicinbox_conf h self mlist (emit (log_attempt mlist) s) = (Ok c, s1) →
  commands (trace s1) = commands (trace s) ++ lookup_commands h self s.
Proof.
  intros Hget. destruct (get_conf_effect _ _ _ _ Hget) as (_ & Hcmd & _).
  unfold log_attempt in Hcmd. now rewrite commands_log in Hcmd.
Qed.

(** The record found by a lookup is truthy exactly when a record of the
    cache matches the list. *)
Lemma get_conf_truthy (mlist : MailingList) (s : State)
    (c : gmap string string) (s1 : State) :
  _get_publicinbox_conf h self mlist s = (Ok c, s1) →
  (conf_truthy c = true ↔
   ∃ x, In x (values (pi_config s1)) ∧
        matches (posting_address mlist) (list_id mlist) x).
Proof.
  intros Hget. destruct (get_conf_effect _ _ _ _ Hget) as (-> & _).
  destruct (find_conf_cases (values (pi_config s1))
              (posting_address mlist) (list_id mlist)) as [[Hno Hr] | [Hin Hm]].
  - rewrite Hr. split.
    + unfold conf_truthy. intros H. apply bool_decide_eq_true in H. now contradiction H.
    + intros (x & Hx & Hm). exfalso. exact (Hno x Hx Hm).
  - split; [intros _; eauto |]. intros _. eapply matches_truthy. exact Hm.
Qed.

(** A permalink that is returned cost one lookup. *)
Lemma permalink_effect (mlist : MailingList) (msg : Message) (s : State)
    (url : option string) (s2 : State) :
  permalink h self mlist msg s = (Ok url, s2) →
  commands (trace s2) = commands (trace s) ++ lookup_commands h self s ∧
  (truthy (pi_config s) = true → s2 = s).
Proof.
  unfold permalink, list_url. unfold bind at 1 2.
  destruct (_get_publicinbox_conf h self mlist s) as [[c | e] s'] eqn:Hget;
    [| discriminate].
  destruct (get_conf_effect _ _ _ _ Hget) as (_ & Hcmd & Hhit).
  assert (Hend : ∀ r : Result (option string), (r, s') = (Ok url, s2) →
                 commands (trace s2) = commands (trace s) ++ lookup_commands h self s ∧
                 (truthy (pi_config s) = true → s2 = s)).
  { intros r [= _ <-]. auto. }
  destruct (conf_truthy c); unfold ret; cbv beta iota.
  - destruct (c !! "url") as [u |]; [| apply Hend].
    destruct (str_truthy u); [| apply Hend].
    unfold bind, lift. destruct (Host.urljoin h u _); apply Hend.
  - apply Hend.
Qed.

(** A reload on any host: the cache is emptied first, so it is empty also
    when [shlex.split] or the start of the command raises. *)
Lemma reload_cases (s : State) :
  _reload_public_inbox h self s
  = if str_truthy (reload_command self)
    then match Host.shlex_split h (reload_command self) with
         | Raise e => (Raise e, set_pi_config empty s)
         | Ok argv =>
             let c := {| args := argv; input := None;
                         env := command_env h self None; text := false |} in
             match Host.popen h (trace s) c with
             | Raise e => (Raise e, set_pi_config empty s)
             | Ok p =>
                 (Ok tt,
                  if (returncode p =? 0)%Z
                  then emit (Run c p) (set_pi_config empty s)
                  else emit (Log ERROR "Error running public-inbox reload command: %s"
                                 [ABytes (stderr p)])
                            (emit (Run c p) (set_pi_config empty s)))
             end
         end
    else (Ok tt, set_pi_config empty s).
Proof.
  unfold _reload_public_inbox, bind, put_pi_config, ret, lift, _run_command, log.
  destruct (str_truthy (reload_command self)); cbn [negb]; [| reflexivity].
  destruct (Host.shlex_split h (reload_command self)) as [argv | e];
    [| reflexivity].
  cbv zeta. cbn [set_pi_config trace].
  destruct (Host.popen h (trace s) _) as [p | e]; [| reflexivity].
  destruct (returncode p =? 0)%Z; reflexivity.
Qed.

Lemma reload_effect (s : State) (r : Result unit) (s' : State) :
  _reload_public_inbox h self s = (r, s') →
  pi_config s' = empty ∧
  (r = Ok tt → commands (trace s') = commands (trace s) ++ reload_commands h self) ∧
  (∀ e, r = Raise e → trace s' = trace s).
Proof.
  rewrite reload_cases. unfold reload_commands.
  destruct (str_truthy (reload_command self)).
  - destruct (Host.shlex_split h (reload_command self)) as [argv | e].
    + cbv zeta. destruct (Host.popen h (trace s) _) as [p | e].
      * destruct (returncode p =? 0)%Z; intros [= <- <-];
          (split; [reflexivity |]); (split; [| discriminate]); intros _;
          rewrite ?commands_log, commands_run; reflexivity.
      * intros [= <- <-]. split; [reflexivity |]. split; [discriminate |].
        reflexivity.
    + intros [= <- <-]. split; [reflexivity |]. split; [discriminate |].
      reflexivity.
  - intros [= <- <-]. split; [reflexivity |]. split; [| discriminate].
    intros _. cbn [set_pi_config trace]. now rewrite app_nil_r.
Qed.

(** [_ensure_list_created] on a list that has a record. *)
Lemma ensure_found (mlist : MailingList) (s : State)
    (c : gmap string string) (s1 : State) :
  str_truthy (auto_create self) = true →
  _get_publicinbox_conf h self mlist (emit (log_attempt mlist) s) = (Ok c, s1) →
  conf_truthy c = true →
  _ensure_list_created h self mlist s = (Ok true, s1).
Proof.
  intros Hauto Hget Hc. unfold _ensure_list_created. rewrite Hauto. cbn [negb].
  unfold bind at 1. unfold log at 1. fold (log_attempt mlist).
  unfold bind at 1. now rewrite Hget, Hc.
Qed.

(** [_ensure_list_created] on a list without record that fails the
    pre-check. *)
Lemma ensure_precheck (mlist : MailingList) (s : State)
    (c : gmap string string) (s1 : State) :
  str_truthy (auto_create self) = true →
  _get_publicinbox_conf h self mlist (emit (log_attempt mlist) s) = (Ok c, s1) →
  conf_truthy c = false →
  archive_policy mlist ≠ public ∨ advertised mlist = false →
  _ensure_list_created h self mlist s
  = (Ok false, emit (Log INFO "Does not exist yet, proceeding." []) s1).
Proof.
  intros Hauto Hget Hc Hpre. unfold _ensure_list_created. rewrite Hauto. cbn [negb].
  unfold bind at 1. unfold log at 1. fold (log_attempt mlist).
  unfold bind at 1. rewrite Hget, Hc.
  unfold bind at 1. unfold log at 1.
  assert (Hb : negb (ArchivePolicy_eqb (archive_policy mlist) public)
               || negb (advertised mlist) = true).
  { destruct Hpre as [Hp | ->]; [| apply orb_true_r].
    destruct (archive_policy mlist); try reflexivity. now contradiction Hp. }
  now rewrite Hb.
Qed.

(** [_ensure_list_created] on a list without record that passes the
    pre-check, on a host that starts [public-inbox-init]. *)
Lemma ensure_init_cases (mlist : MailingList) (s : State)
    (c : gmap string string) (s1 : State) (argv : list string)
    (proc : CompletedProcess) :
  str_truthy (auto_create self) = true →
  _get_publicinbox_conf h self mlist (emit (log_attempt mlist) s) = (Ok c, s1) →
  conf_truthy c = false →
  archive_policy mlist = public →
  advertised mlist = true →
  init_argv h self mlist = Ok argv →
  let cmd := {| args := argv; input := None; env := command_env h self None;
                text := false |} in
  Host.popen h (trace (at_init s1)) cmd = Ok proc →
  let s3 := emit (Run cmd proc) (at_init s1) in
  _ensure_list_created h self mlist s =
  if (returncode proc =? 0)%Z
  then
    bind (_reload_public_inbox h self) (fun _ => ret true)
         (emit (Log INFO "Initialised public-inbox archive for list %s"
                    [AStr (list_name mlist)]) s3)
  else
    (Ok false,
     emit (Log ERROR "Unable to initialise public-inbox archive for list %s: %s"
               [AStr (list_name mlist); ABytes (stderr proc)]) s3).
Proof.
  intros Hauto Hget Hc Hpol Hadv Hargv cmd Hpopen s3.
  unfold _ensure_list_created. rewrite Hauto. cbn [negb].
  unfold bind at 1. unfold log at 1. fold (log_attempt mlist).
  unfold bind at 1. rewrite Hget, Hc.
  unfold bind at 1. unfold log at 1.
  rewrite Hpol, Hadv. cbn [ArchivePolicy_eqb negb orb].
  unfold bind at 1. unfold log at 1.
  unfold bind at 1. unfold lift at 1. rewrite Hargv.
  unfold bind at 1. unfold _run_command at 1.
  fold (at_init s1). fold cmd. rewrite Hpopen. fold s3.
  destruct (returncode proc =? 0)%Z; cbn [negb].
  - unfold bind at 1. unfold log at 1. reflexivity.
  - reflexivity.
Qed.

Lemma ensure_init_raises (mlist : MailingList) (s : State)
    (c : gmap string string) (s1 : State) (e : exn) :
  str_truthy (auto_create self) = true →
  _get_publicinbox_conf h self mlist (emit (log_attempt mlist) s) = (Ok c, s1) →
  conf_truthy c = false →
  archive_policy mlist = public →
  advertised mlist = true →
  init_argv h self mlist = Raise e
  ∨ (∃ argv, init_argv h self mlist = Ok argv ∧
             Host.popen h (trace (at_init s1))
               {| args := argv; input := None; env := command_env h self None;
                  text := false |} = Raise e) →
  _ensure_list_created h self mlist s = (Raise e, at_init s1).
Proof.
  intros Hauto Hget Hc Hpol Hadv Hwhy.
  unfold _ensure_list_created. rewrite Hauto. cbn [negb].
  unfold bind at 1. unfold log at 1. fold (log_attempt mlist).
  unfold bind at 1. rewrite Hget, Hc.
  unfold bind at 1. unfold log at 1.
  rewrite Hpol, Hadv. cbn [ArchivePolicy_eqb negb orb].
  unfold bind at 1. unfold log at 1.
  unfold bind at 1. unfold lift at 1. fold (at_init s1).
  destruct Hwhy as [-> | (argv & -> & Hpopen)]; [reflexivity |].
  unfold bind at 1. unfold _run_command at 1. now rewrite Hpopen.
Qed.

(** The state and the commands after an init that exited zero, whether the
    reload returns or raises ... *)
Lemma ensure_created (mlist : MailingList) (s : State)
    (c : gmap string string) (s1 : State) (argv : list string)
    (proc : CompletedProcess) (r : Result unit) (s_r : State) :
  str_truthy (auto_create self) = true →
  _get_publicinbox_conf h self mlist (emit (log_attempt mlist) s) = (Ok c, s1) →
  conf_truthy c = false →
  archive_policy mlist = public →
  advertised mlist = true →
  init_argv h self mlist = Ok argv →
  let cmd := {| args := argv; input := None; env := command_env h self None;
                text := false |} in
  Host.popen h (trace (at_init s1)) cmd = Ok proc →
  returncode proc = 0%Z →
  _reload_public_inbox h self
    (emit (Log INFO "Initialised public-inbox archive for list %s"
               [AStr (list_name mlist)])
          (emit (Run cmd proc) (at_init s1))) = (r, s_r) →
  _ensure_list_created h self mlist s = (rbind r (fun _ => Ok true), s_r) ∧
  pi_config s_r = empty ∧
  commands (trace s_r)
  = commands (trace s1) ++ cmd ::
    match r with Ok _ => reload_commands h self | Raise _ => [] end.
Proof.
  intros Hauto Hget Hc Hpol Hadv Hargv cmd Hpopen Hrc Hre.
  pose proof (ensure_init_cases mlist s c s1 argv proc
                Hauto Hget Hc Hpol Hadv Hargv Hpopen) as Hrun.
  cbv zeta in Hrun. fold cmd in Hrun. rewrite Hrc in Hrun. cbn [Z.eqb] in Hrun.
  unfold bind in Hrun. rewrite Hre in Hrun.
  destruct (reload_effect _ _ _ Hre) as (Hcache & Hok & Hraise).
  split; [| split; [exact Hcache |]].
  - rewrite Hrun. now destruct r.
  - destruct r as [[] | e].
    + rewrite (Hok eq_refl). unfold at_init.
      rewrite commands_log, commands_run, !commands_log, <- app_assoc.
      reflexivity.
    + unfold commands at 1. rewrite (Hraise e eq_refl).
      fold (commands (trace (emit (Log INFO "Initialised public-inbox archive for list %s"
               [AStr (list_name mlist)])
          (emit (Run cmd proc) (at_init s1))))).
      unfold at_init. now rewrite commands_log, commands_run, !commands_log.
Qed.

(** ... and after one that exited non-zero. *)
Lemma ensure_init_failed (mlist : MailingList) (s : State)
    (c : gmap string string) (s1 : State) (argv : list string)
    (proc : CompletedProcess) :
  str_truthy (auto_create self) = true →
  _get_publicinbox_conf h self mlist (emit (log_attempt mlist) s) = (Ok c, s1) →
  conf_truthy c = false →
  archive_policy mlist = public →
  advertised mlist = true →
  init_argv h self mlist = Ok argv →
  let cmd := {| args := argv; input := None; env := command_env h self None;
                text := false |} in
  Host.popen h (trace (at_init s1)) cmd = Ok proc →
  returncode proc ≠ 0%Z →
  ∃ s', _ensure_list_created h self mlist s = (Ok false, s') ∧
        commands (trace s') = commands (trace s1) ++ [cmd].
Proof.
  intros Hauto Hget Hc Hpol Hadv Hargv cmd Hpopen Hrc.
  rewrite (ensure_init_cases mlist s c s1 argv proc
             Hauto Hget Hc Hpol Hadv Hargv Hpopen).
  apply Z.eqb_neq in Hrc. rewrite Hrc.
  eexists. split; [reflexivity |]. unfold at_init.
  now rewrite commands_log, commands_run, !commands_log.
Qed.

(** A delivery that returns: the agent is the one command after the
    lookup of the permalink. *)
Lemma archive_delivered (mlist : MailingList) (msg : Message) (s s1 s2 : State)
    (url : option string) (proc : CompletedProcess) :
  _ensure_list_created h self mlist s = (Ok true, s1) →
  permalink h self mlist msg s1 = (Ok url, s2) →
  Host.popen h (trace s2) (mda_command h self mlist msg) = Ok proc →
  decodes proc = true →
  ∃ s3, archive_message h self mlist msg s = (Ok url, s3) ∧
        commands (trace s3)
        = commands (trace s1) ++ lookup_commands h self s1
          ++ [mda_command h self mlist msg].
Proof.
  intros Hens Hperm Hpopen Hdec.
  rewrite (deliver_run h self mlist msg s s1 s2 url Hens Hperm).
  cbv zeta. rewrite Hpopen, Hdec. eexists. split; [reflexivity |].
  destruct (permalink_effect _ _ _ _ _ Hperm) as [Hcmd _].
  now rewrite commands_delivery, commands_run, Hcmd, <- app_assoc.
Qed.

End Hosts.

End OperationFacts.

Module Operations.
Import Py OrderedDict OrderedDictFacts RunFacts EffectFacts CacheFacts ReadFacts
  OperationFacts.

(** X9.  [_ensure_list_created] starts [public-inbox-init] only for a list
    that has no record and is public and advertised.  With auto-creation
    on: if the lookup finds a record the call returns [True], if it finds
    none and the list is not public or not advertised the call returns
    [False]; either way the cache is the one the lookup left and the only
    command run is the [git config] of a lookup on an empty cache. *)
Theorem ensure_list_created_without_init
    (rt : Runtime) (self : Settings) (mlist : MailingList) (s : State)
    (c : gmap string string) (s1 : State) :
  str_truthy (auto_create self) = true →
  _get_publicinbox_conf rt self mlist (emit (log_attempt mlist) s) = (Ok c, s1) →
  conf_truthy c = true
  ∨ archive_policy mlist ≠ public ∨ advertised mlist = false →
  ∃ s',
    _ensure_list_created rt self mlist s = (Ok (conf_truthy c), s') ∧
    pi_config s' = pi_config s1 ∧
    commands (trace s') = commands (trace s) ++ lookup_commands rt self s.
Proof.
  intros Hauto Hget Hwhy.
  pose proof (get_conf_after_attempt rt self mlist s c s1 Hget) as Hcmd.
  destruct (conf_truthy c) eqn:Hc.
  - exists s1. split; [now apply (ensure_found rt self mlist s c s1) |].
    split; [reflexivity | exact Hcmd].
  - destruct Hwhy as [Hwhy | Hwhy]; [discriminate |].
    eexists. split; [now apply (ensure_precheck rt self mlist s c s1) |].
    split; [reflexivity |]. now rewrite commands_log.
Qed.

Lemma ensure_list_created_without_init_witness :
  fst (_ensure_list_created (Demo.runtime true 0 0) (Demo.settings "yes" "")
         Demo.test_list Demo.fresh) = Ok true.
Proof.
  destruct (ensure_list_created_without_init
              (Demo.runtime true 0 0) (Demo.settings "yes" "")
              Demo.test_list Demo.fresh
              (list_to_map [("address", "test@example.com");
                            ("url", "http://x/list/");
                            ("listid", "test.example.com")])
              (snd (_get_publicinbox_conf (Demo.runtime true 0 0)
                      (Demo.settings "yes" "") Demo.test_list
                      (emit (log_attempt Demo.test_list) Demo.fresh))))
    as (s' & -> & _);
    [reflexivity | vm_compute; reflexivity | left; reflexivity
    | reflexivity].
Defined.

(** X10.  The first message to a new list, on any host.  Let the lookup
    of [_ensure_list_created] find no record for a public, advertised list,
    let [urljoin] accept the base URL and let [public-inbox-init] start and
    exit zero.  Then the reload is next, and it empties the cache before
    anything else:
    - if the reload returns, the check returns [True] with the cache empty,
      so [permalink] looks the link up in the configuration as git prints
      it after the init; when that returns a link, the agent starts and
      what it wrote is text, [archive_message] returns the link, and the
      commands run from the init on are the init command, the reload
      command if one is configured, [git config] once more, and the
      delivery agent;
    - if the reload raises, because [shlex.split] rejects the reload
      command or the command cannot be started, [archive_message] raises
      the same with the cache empty, and the init command is the last
      command that ran: nothing is delivered. *)
Theorem archive_message_after_creation
    (h : Host.t) (self : Settings) (mlist : MailingList) (msg : Message)
    (s : State) (c : gmap string string) (s1 : State) (argv : list string)
    (iproc : CompletedProcess) :
  str_truthy (auto_create self) = true →
  _get_publicinbox_conf h self mlist (emit (log_attempt mlist) s) = (Ok c, s1) →
  conf_truthy c = false →
  archive_policy mlist = public →
  advertised mlist = true →
  init_argv h self mlist = Ok argv →
  let init := {| args := argv; input := None; env := command_env h self None;
                 text := false |} in
  Host.popen h (trace (at_init s1)) init = Ok iproc →
  returncode iproc = 0%Z →
  let s_i := emit (Log INFO "Initialised public-inbox archive for list %s"
                       [AStr (list_name mlist)])
                  (emit (Run init iproc) (at_init s1)) in
  (∀ s_r, _reload_public_inbox h self s_i = (Ok tt, s_r) →
     _ensure_list_created h self mlist s = (Ok true, s_r) ∧
     pi_config s_r = empty ∧
     ∀ url s2 proc,
       permalink h self mlist msg s_r = (Ok url, s2) →
       Host.popen h (trace s2) (mda_command h self mlist msg) = Ok proc →
       decodes proc = true →
       ∃ s3, archive_message h self mlist msg s = (Ok url, s3) ∧
             commands (trace s3)
             = commands (trace s1) ++ init :: reload_commands h self
               ++ [git_list_command h self; mda_command h self mlist msg]) ∧
  (∀ e s_e, _reload_public_inbox h self s_i = (Raise e, s_e) →
     archive_message h self mlist msg s = (Raise e, s_e) ∧
     pi_config s_e = empty ∧
     commands (trace s_e) = commands (trace s1) ++ [init]) ∧
  (∀ e, str_truthy (reload_command self) = true →
        Host.shlex_split h (reload_command self) = Raise e →
        _reload_public_inbox h self s_i = (Raise e, set_pi_config empty s_i)).
Proof.
  intros Hauto Hget Hc Hpol Hadv Hargv init Hpopen Hrc s_i.
  split; [| split].
  - intros s_r Hre.
    destruct (ensure_created h self mlist s c s1 argv iproc (Ok tt) s_r
                Hauto Hget Hc Hpol Hadv Hargv Hpopen Hrc Hre)
      as (Hens & Hcache & Hcmds).
    cbn [rbind] in Hens. fold init in Hcmds.
    split; [exact Hens |]. split; [exact Hcache |].
    intros url s2 proc Hperm Hmda Hdec.
    destruct (archive_delivered h self mlist msg s s_r s2 url proc
                Hens Hperm Hmda Hdec) as (s3 & Harch & Hc3).
    exists s3. split; [exact Harch |].
    rewrite Hc3, Hcmds. unfold lookup_commands. rewrite Hcache.
    cbn [truthy empty]. rewrite <- !app_assoc. reflexivity.
  - intros e s_e Hre.
    destruct (ensure_created h self mlist s c s1 argv iproc (Raise e) s_e
                Hauto Hget Hc Hpol Hadv Hargv Hpopen Hrc Hre)
      as (Hens & Hcache & Hcmds).
    cbn [rbind] in Hens. fold init in Hcmds.
    split; [| auto]. unfold archive_message, bind. now rewrite Hens.
  - intros e Hre Hsplit. now rewrite reload_cases, Hre, Hsplit.
Qed.

Lemma archive_message_after_creation_witness :
  fst (archive_message (Demo.runtime false 0 0) (Demo.settings "yes" "")
         Demo.test_list Demo.test_msg Demo.fresh)
  = Ok (Some "http://x/list/abc@d/") ∧
  fst (archive_message Demo.quoting (Demo.settings "yes" "reload 'now")
         Demo.test_list Demo.test_msg Demo.fresh)
  = Raise ValueError.
Proof.
  split.
  - pose proof (archive_message_after_creation
                (Demo.runtime false 0 0) (Demo.settings "yes" "")
                Demo.test_list Demo.test_msg Demo.fresh ∅
                (snd (_get_publicinbox_conf (Demo.runtime false 0 0)
                        (Demo.settings "yes" "") Demo.test_list
                        (emit (log_attempt Demo.test_list) Demo.fresh)))
                (init_args (Demo.runtime false 0 0) (Demo.settings "yes" "")
                   Demo.test_list)
                {| returncode := 0; stdout := []; stderr := [] |}) as H.
    destruct H as [H _];
      [reflexivity | vm_compute; reflexivity | reflexivity | reflexivity
      | reflexivity | reflexivity | reflexivity | reflexivity |].
    destruct (H (snd (_ensure_list_created (Demo.runtime false 0 0)
                        (Demo.settings "yes" "") Demo.test_list Demo.fresh)))
      as (_ & _ & Hdel); [vm_compute; reflexivity |].
    destruct (Hdel (Some "http://x/list/abc@d/")
                (snd (permalink (Demo.runtime false 0 0) (Demo.settings "yes" "")
                        Demo.test_list Demo.test_msg
                        (snd (_ensure_list_created (Demo.runtime false 0 0)
                                (Demo.settings "yes" "") Demo.test_list
                                Demo.fresh))))
                {| returncode := 0; stdout := []; stderr := [] |})
      as (s3 & -> & _);
      [vm_compute; reflexivity | vm_compute; reflexivity | reflexivity |].
    reflexivity.
  - pose proof (archive_message_after_creation
                Demo.quoting (Demo.settings "yes" "reload 'now")
                Demo.test_list Demo.test_msg Demo.fresh ∅
                (snd (_get_publicinbox_conf Demo.quoting
                        (Demo.settings "yes" "reload 'now") Demo.test_list
                        (emit (log_attempt Demo.test_list) Demo.fresh)))
                (init_args (Demo.runtime false 0 0) (Demo.settings "yes" "")
                   Demo.test_list)
                {| returncode := 0; stdout := []; stderr := [] |}) as H.
    destruct H as (_ & H & Hsplit);
      [reflexivity | vm_compute; reflexivity | reflexivity | reflexivity
      | reflexivity | reflexivity | reflexivity | reflexivity |].
    specialize (Hsplit ValueError eq_refl eq_refl).
    destruct (H _ _ Hsplit) as (-> & _). reflexivity.
Defined.

(** X11.  [list_deleting_handler] does nothing unless the archiver is
    enabled and auto-creation is on; then, for a list without record, it
    does no more than the lookup.  For a list with a record it runs
    [git config --remove-section publicinbox.<list_name>], named after the
    list whatever the cached record is called, and then reloads whether or
    not the removal succeeded: the cache is empty afterwards and the reload
    command, if one is configured, is the last command run. *)
Theorem list_deleting_handler_effects
    (rt : Runtime) (self : Settings) (mlist : MailingList) (s : State) :
  (is_enabled self = false ∨ str_truthy (auto_create self) = false →
   list_deleting_handler rt self mlist s = (Ok tt, s)) ∧
  (∀ c s1,
     is_enabled self = true →
     str_truthy (auto_create self) = true →
     _get_publicinbox_conf rt self mlist s = (Ok c, s1) →
     (conf_truthy c = false →
      list_deleting_handler rt self mlist s = (Ok tt, s1)) ∧
     (conf_truthy c = true →
      ∃ s', list_deleting_handler rt self mlist s = (Ok tt, s') ∧
            pi_config s' = empty ∧
            commands (trace s')
            = commands (trace s) ++ lookup_commands rt self s
              ++ remove_section_command rt self mlist :: reload_commands rt self)).
Proof.
  split.
  - intros Hoff. unfold list_deleting_handler.
    destruct Hoff as [-> | ->]; [reflexivity | now rewrite orb_true_r].
  - intros c s1 Hen Hauto Hget.
    destruct (get_conf_effect rt self mlist s c s1 Hget) as (_ & Hcmd & _).
    split; intros Hc; unfold list_deleting_handler;
      rewrite Hen, Hauto; cbn [negb orb];
      unfold bind at 1; rewrite Hget; cbv beta iota; rewrite Hc; cbn [negb];
      [reflexivity |].
    unfold bind at 1. rewrite run_command_returns. cbv beta iota zeta.
    fold (remove_section_command rt self mlist).
    match goal with
    | |- context [negb ?b] => destruct (negb b)
    end; unfold bind at 1; unfold log at 1;
      match goal with
      | |- context [_reload_public_inbox _ self ?s0] =>
          destruct (reload_run rt self s0) as (s' & -> & Hcache & Hcmds)
      end; exists s'; (split; [reflexivity |]); (split; [exact Hcache |]);
      rewrite Hcmds, commands_log, commands_run, Hcmd, <- !app_assoc;
      reflexivity.
Qed.

Lemma list_deleting_handler_effects_witness :
  commands (trace (snd (list_deleting_handler (Demo.runtime true 0 0)
                          (Demo.settings "yes" "reload now") Demo.test_list
                          Demo.fresh)))
  = [git_list_command (Demo.runtime true 0 0) (Demo.settings "yes" "reload now");
     remove_section_command (Demo.runtime true 0 0)
       (Demo.settings "yes" "reload now") Demo.test_list;
     {| args := ["reload"; "now"]; input := None;
        env := command_env (Demo.runtime true 0 0)
                 (Demo.settings "yes" "reload now") None;
        text := false |}].
Proof.
  pose proof (list_deleting_handler_effects
                (Demo.runtime true 0 0) (Demo.settings "yes" "reload now")
                Demo.test_list Demo.fresh) as [_ Hon].
  destruct (Hon (list_to_map [("address", "test@example.com");
                              ("url", "http://x/list/");
                              ("listid", "test.example.com")])
                (snd (_get_publicinbox_conf (Demo.runtime true 0 0)
                        (Demo.settings "yes" "reload now") Demo.test_list
                        Demo.fresh)))
    as [_ Hfound];
    [reflexivity | reflexivity | vm_compute; reflexivity |].
  destruct Hfound as (s' & Hh & _ & Hc); [reflexivity |].
  rewrite Hh. cbn [snd]. rewrite Hc. reflexivity.
Defined.

(** X12.  [pi_auto_create] is tested for truth only: with two non-empty
    values of the setting, whatever they spell, [_ensure_list_created],
    [archive_message] and [list_deleting_handler] do the same. *)
Theorem auto_create_is_tested_for_truth_only
    (rt : Runtime) (self : Settings) (a1 a2 : string)
    (mlist : MailingList) (msg : Message) (s : State) :
  str_truthy a1 = true →
  str_truthy a2 = true →
  _ensure_list_created rt (with_auto_create a1 self) mlist s
  = _ensure_list_created rt (with_auto_create a2 self) mlist s ∧
  archive_message rt (with_auto_create a1 self) mlist msg s
  = archive_message rt (with_auto_create a2 self) mlist msg s ∧
  list_deleting_handler rt (with_auto_create a1 self) mlist s
  = list_deleting_handler rt (with_auto_create a2 self) mlist s.
Proof.
  intros H1 H2.
  assert (He : _ensure_list_created rt (with_auto_create a1 self) mlist s
               = _ensure_list_created rt (with_auto_create a2 self) mlist s).
  { unfold _ensure_list_created. cbn [auto_create with_auto_create].
    rewrite H1, H2. reflexivity. }
  split; [exact He |]. split.
  - unfold archive_message. unfold bind at 1 3. rewrite He. reflexivity.
  - unfold list_deleting_handler. cbn [auto_create is_enabled with_auto_create].
    rewrite H1, H2. reflexivity.
Qed.

Lemma auto_create_is_tested_for_truth_only_witness :
  archive_message (Demo.runtime true 0 0)
    (with_auto_create "yes" (Demo.settings "" "")) Demo.test_list Demo.test_msg
    Demo.fresh
  = archive_message (Demo.runtime true 0 0)
      (with_auto_create "no" (Demo.settings "" "")) Demo.test_list Demo.test_msg
      Demo.fresh.
Proof.
  apply (auto_create_is_tested_for_truth_only
           (Demo.runtime true 0 0) (Demo.settings "" "") "yes" "no"
           Demo.test_list Demo.test_msg Demo.fresh); reflexivity.
Defined.

End Operations.

(** ** When a message reaches the delivery agent *)

Module DeliveryFacts.
Import Py OrderedDict OrderedDictFacts RunFacts EffectFacts EnvironmentFacts
  CacheFacts ReadFacts OperationFacts.

Lemma policy_eqb_public (p : ArchivePolicy) :
  ArchivePolicy_eqb p public = true ↔ p = public.
Proof. destruct p; split; intros H; try reflexivity; discriminate. Qed.

Lemma unfed_refl (s : State) : unfed_since s s.
Proof. exists []. split; [now rewrite app_nil_r | constructor]. Qed.

(** No method but the delivery feeds a command on standard input, on any
    host and whether it returns or raises. *)
Section Unfed.
Context (h : Host.t) (self : Settings) (s0 : State).

Lemma unfed_log l fmt a : preserves (unfed_since s0) (log l fmt a).
Proof.
  intros s (before & H & Hno). exists before. split; [| exact Hno].
  unfold log. cbn [snd]. now rewrite commands_log.
Qed.

Lemma unfed_run argv t kw :
  preserves (unfed_since s0) (_run_command h self argv t None kw).
Proof.
  intros s (before & H & Hno). unfold _run_command.
  destruct (Host.popen h (trace s) _) as [p | e]; cbn [snd];
    [| exists before; auto].
  eexists (before ++ [_]). rewrite commands_run, H, <- app_assoc.
  split; [reflexivity |]. apply Forall_app. split; [exact Hno |].
  repeat constructor.
Qed.

Lemma unfed_clear : preserves (unfed_since s0) (put_pi_config empty).
Proof. intros s H. exact H. Qed.

Lemma unfed_loop cfgs : preserves (unfed_since s0) (parse_loop cfgs).
Proof.
  intros s H. unfold parse_loop.
  destruct (parse_entries cfgs (pi_config s)) as [r d]. exact H.
Qed.

Lemma ensure_unfed (mlist : MailingList) :
  preserves (unfed_since s0) (_ensure_list_created h self mlist).
Proof.
  exact (ensure_keeps h self _ unfed_log unfed_run unfed_clear unfed_loop mlist).
Qed.

Lemma permalink_unfed (mlist : MailingList) (msg : Message) :
  preserves (unfed_since s0) (permalink h self mlist msg).
Proof.
  exact (permalink_keeps h self _ unfed_log unfed_run unfed_loop mlist msg).
Qed.

End Unfed.

(** The one command [archive_message] feeds is the delivery agent, and it
    is the last command of the call. *)
Lemma archive_message_feeds (h : Host.t) (self : Settings) (mlist : MailingList)
    (msg : Message) (s : State) :
  ∃ before,
    Forall (fun c => input c = None) before ∧
    (commands (trace (snd (archive_message h self mlist msg s)))
     = commands (trace s) ++ before ∨
     commands (trace (snd (archive_message h self mlist msg s)))
     = commands (trace s) ++ before ++ [mda_command h self mlist msg]).
Proof.
  pose proof (ensure_unfed h self s mlist s (unfed_refl s)) as H1.
  remember (archive_message h self mlist msg s) as r eqn:Hr.
  unfold archive_message in Hr. unfold bind at 1 in Hr.
  destruct (_ensure_list_created h self mlist s) as [[[] | e] s1];
    cbn [snd negb] in *.
  2, 3: subst r; destruct H1 as (before & H & Hno); exists before; auto.
  pose proof (permalink_unfed h self s mlist msg s1 H1) as H2.
  unfold bind at 1 in Hr.
  destruct (permalink h self mlist msg s1) as [[url | e] s2]; cbn [snd] in *;
    destruct H2 as (before & H & Hno); exists before; (split; [exact Hno |]);
    [| subst r; now left].
  unfold bind at 1 in Hr. rewrite run_command_text in Hr. cbv zeta in Hr.
  fold (mda_command h self mlist msg) in Hr.
  destruct (Host.popen h (trace s2) _) as [p | e]; [| subst r; now left].
  right. destruct (decodes p); cbv beta iota in Hr.
  - destruct (returncode p =? 0)%Z; unfold bind, log, ret in Hr;
      cbn [negb] in Hr; subst r; cbn [snd];
      now rewrite commands_log, commands_run, H, <- app_assoc.
  - subst r. cbn [snd]. now rewrite commands_run, H, <- app_assoc.
Qed.

End DeliveryFacts.

Module Delivery.
Import Py OrderedDict OrderedDictFacts RunFacts EffectFacts CacheFacts ReadFacts
  OperationFacts DeliveryFacts.

(** X13.  When a message reaches the delivery agent, on any host.
    - Whatever happens, returning or raising, the only command
      [archive_message] feeds on standard input is the delivery agent, and
      when it runs it is the last command of the call.
    - With auto-creation off the call returns [None] and does nothing.
    - With auto-creation on, let the lookup of [_ensure_list_created] find
      [c], which is a record exactly when a record of the cache matches the
      list.  If the check returns, it returns [True] exactly when [c] is a
      record, or the list is public and advertised and
      [public-inbox-init] was started and exited zero.  When it returns
      [False], [archive_message] returns [None] in the state the check
      left.  When it returns [True], [permalink] returns a link, the agent
      starts and what it wrote is text, [archive_message] returns that
      link and the agent is the last command, the only one fed on standard
      input. *)
Theorem archive_message_delivers_exactly_when
    (h : Host.t) (self : Settings) (mlist : MailingList) (msg : Message)
    (s : State) :
  (∃ before,
     Forall (fun c => input c = None) before ∧
     (commands (trace (snd (archive_message h self mlist msg s)))
      = commands (trace s) ++ before ∨
      commands (trace (snd (archive_message h self mlist msg s)))
      = commands (trace s) ++ before ++ [mda_command h self mlist msg])) ∧
  (str_truthy (auto_create self) = false →
   archive_message h self mlist msg s = (Ok None, s)) ∧
  (∀ c s1,
     str_truthy (auto_create self) = true →
     _get_publicinbox_conf h self mlist (emit (log_attempt mlist) s) = (Ok c, s1) →
     (conf_truthy c = true ↔
      ∃ x, In x (values (pi_config s1)) ∧
           matches (posting_address mlist) (list_id mlist) x) ∧
     ∀ created s_e,
       _ensure_list_created h self mlist s = (Ok created, s_e) →
       (created = true ↔
        conf_truthy c = true ∨
        (archive_policy mlist = public ∧ advertised mlist = true ∧
         ∃ argv iproc,
           init_argv h self mlist = Ok argv ∧
           Host.popen h (trace (at_init s1))
             {| args := argv; input := None; env := command_env h self None;
                text := false |} = Ok iproc ∧
           returncode iproc = 0%Z)) ∧
       (created = false →
        archive_message h self mlist msg s = (Ok None, s_e)) ∧
       (created = true →
        ∀ url s2 proc,
          permalink h self mlist msg s_e = (Ok url, s2) →
          Host.popen h (trace s2) (mda_command h self mlist msg) = Ok proc →
          decodes proc = true →
          ∃ s3 before,
            archive_message h self mlist msg s = (Ok url, s3) ∧
            Forall (fun c => input c = None) before ∧
            commands (trace s3)
            = commands (trace s) ++ before ++ [mda_command h self mlist msg])).
Proof.
  split; [apply archive_message_feeds |]. split.
  { intros Hauto. unfold archive_message, _ensure_list_created.
    now rewrite Hauto. }
  intros c s1 Hauto Hget.
  split; [exact (get_conf_truthy h self mlist _ c s1 Hget) |].
  intros created s_e Hens. split; [| split].
  - destruct (conf_truthy c) eqn:Hc.
    { rewrite (ensure_found h self mlist s c s1 Hauto Hget Hc) in Hens.
      injection Hens as <- _. split; auto. }
    destruct (ArchivePolicy_eqb (archive_policy mlist) public) eqn:Hpol.
    2: { assert (Hne : archive_policy mlist ≠ public).
         { intros Heq. apply policy_eqb_public in Heq. congruence. }
         rewrite (ensure_precheck h self mlist s c s1 Hauto Hget Hc (or_introl Hne))
           in Hens.
         injection Hens as <- _.
         split; [discriminate |]. intros [? | (? & _)]; [discriminate | contradiction]. }
    apply policy_eqb_public in Hpol.
    destruct (advertised mlist) eqn:Hadv.
    2: { rewrite (ensure_precheck h self mlist s c s1 Hauto Hget Hc (or_intror Hadv))
           in Hens.
         injection Hens as <- _.
         split; [discriminate |]. intros [? | (_ & ? & _)]; discriminate. }
    destruct (init_argv h self mlist) as [argv | e] eqn:Hargv.
    2: { rewrite (ensure_init_raises h self mlist s c s1 e Hauto Hget Hc Hpol Hadv)
           in Hens; [discriminate | now left]. }
    destruct (Host.popen h (trace (at_init s1))
                {| args := argv; input := None; env := command_env h self None;
                   text := false |}) as [iproc | e] eqn:Hpopen.
    2: { rewrite (ensure_init_raises h self mlist s c s1 e Hauto Hget Hc Hpol Hadv)
           in Hens; [discriminate | right; eauto]. }
    rewrite (ensure_init_cases h self mlist s c s1 argv iproc
               Hauto Hget Hc Hpol Hadv Hargv Hpopen) in Hens.
    destruct (Z.eqb_spec (returncode iproc) 0) as [Hrc | Hrc].
    + unfold bind, ret in Hens.
      destruct (_reload_public_inbox h self _) as [[[] | e] s'];
        [| discriminate].
      injection Hens as <- _. split; [| reflexivity].
      intros _. right. split; [exact Hpol |]. split; [reflexivity |].
      exists argv, iproc. auto.
    + injection Hens as <- _. split; [discriminate |].
      intros [? | (_ & _ & argv' & iproc' & [= <-] & Hp & Hz)]; [discriminate |].
      rewrite Hpopen in Hp. injection Hp as <-. contradiction.
  - intros ->. exact (deliver_not h self mlist msg s s_e Hens).
  - intros -> url s2 proc Hperm Hmda Hdec.
    destruct (archive_delivered h self mlist msg s s_e s2 url proc
                Hens Hperm Hmda Hdec) as (s3 & Harch & Hc3).
    pose proof (ensure_unfed h self s mlist s (unfed_refl s)) as Hun.
    rewrite Hens in Hun. destruct Hun as (b1 & Hb1 & Hno1). cbn [snd] in Hb1.
    exists s3, (b1 ++ lookup_commands h self s_e).
    split; [exact Harch |]. split.
    + apply Forall_app. split; [exact Hno1 |].
      unfold lookup_commands. destruct (truthy (pi_config s_e)); repeat constructor.
    + now rewrite Hc3, Hb1, <- !app_assoc.
Qed.

Lemma archive_message_delivers_exactly_when_witness :
  archive_message (Demo.runtime false 1 0) (Demo.settings "yes" "")
                  Demo.test_list Demo.test_msg Demo.fresh
  = (Ok None,
     snd (_ensure_list_created (Demo.runtime false 1 0) (Demo.settings "yes" "")
            Demo.test_list Demo.fresh)).
Proof.
  pose proof (archive_message_delivers_exactly_when
                (Demo.runtime false 1 0) (Demo.settings "yes" "")
                Demo.test_list Demo.test_msg Demo.fresh) as (_ & _ & H).
  destruct (H ∅ (snd (_get_publicinbox_conf (Demo.runtime false 1 0)
                        (Demo.settings "yes" "") Demo.test_list
                        (emit (log_attempt Demo.test_list) Demo.fresh))))
    as (_ & Hens); [reflexivity | vm_compute; reflexivity |].
  destruct (Hens false
              (snd (_ensure_list_created (Demo.runtime false 1 0)
                      (Demo.settings "yes" "") Demo.test_list Demo.fresh)))
    as (_ & Hnot & _); [vm_compute; reflexivity |].
  now apply Hnot.
Defined.

End Delivery.
